(** * The AI-tutor chat front-end: voice capture and the PCM/WAV encoder

    A shallow embedding of the chat component of the repository (the two
    revisions of [ChatInterface], [src/unnamed/part_001] and
    [src/unnamed/part_002]) together with the properties its specification
    states about the audio capture-to-WAV pipeline and the text input.

    Layout: the JavaScript values the component manipulates (strings as
    UTF-16 code units, Numbers, typed arrays, [DataView] writes), then the
    encoder [audioBufferToWav], then the component state and its event
    handlers in a state-and-exception monad, then the application shell
    ([App], the API helpers), the speech helper and the mascot, then the
    theorems. *)

From Stdlib Require Import ZArith QArith Qabs Qminmax Lia List String Ascii.
From coqutil Require Import Byte Word.LittleEndianList.
From stdpp Require Import base option list gmap strings.

Local Open Scope Z_scope.

(* ===================================================================== *)
(** * JavaScript values *)
(* ===================================================================== *)

(** A JavaScript string is a sequence of UTF-16 code units. *)
Abbreviation jsstring := (list N).

(** The code units of an ASCII literal of the source. *)
Definition js (s : string) : jsstring :=
  N_of_ascii <$> list_ascii_of_string s.

(** [s.charCodeAt(i)] for an index inside the string (outside it the
    result is NaN, which a [setUint8] stores as 0). *)
Definition charCodeAt (s : jsstring) (i : nat) : Z :=
  Z.of_N (default 0%N (s !! i)).

(** ** Numbers

    The samples of an [AudioBuffer] channel come from a [Float32Array]:
    each is a binary32 value, that is NaN, an infinity, or a dyadic
    rational [m * 2^e] with [|m| < 2^24].  The only arithmetic the encoder
    performs on them is a comparison with a constant and one multiplication
    by [0x8000] or [0x7FFF]; the exact product needs fewer than 40
    significant bits, so the binary64 multiplication of the source does not
    round, and the finite values are modelled by their exact rational
    value.  (The two zeros are one value here: the source never
    distinguishes them, [-0 < 0] is false and [-0] is stored as [0].) *)
Inductive Number : Type :=
  | Finite (q : Q)
  | PosInfinity
  | NegInfinity
  | NaN.

Definition Qltb (x y : Q) : bool := negb (Qle_bool y x).

(** [a < b] on Numbers: false as soon as one side is NaN. *)
Definition Number_ltb (a b : Number) : bool :=
  match a, b with
  | NaN, _ | _, NaN => false
  | Finite x, Finite y => Qltb x y
  | NegInfinity, NegInfinity => false
  | NegInfinity, _ => true
  | _, NegInfinity => false
  | PosInfinity, _ => false
  | Finite _, PosInfinity => true
  end.

(** [Math.min(a, b)] and [Math.max(a, b)]: NaN if an argument is NaN. *)
Definition Math_min (a b : Number) : Number :=
  match a, b with
  | NaN, _ | _, NaN => NaN
  | _, _ => if Number_ltb b a then b else a
  end.

Definition Math_max (a b : Number) : Number :=
  match a, b with
  | NaN, _ | _, NaN => NaN
  | _, _ => if Number_ltb a b then b else a
  end.

(** [a * b].  An infinity times zero is NaN; otherwise the sign rule. *)
Definition Number_mul (a b : Number) : Number :=
  let inf_times (positive : bool) (q : Q) : Number :=
    if Qeq_bool q 0 then NaN
    else if Bool.eqb positive (Qltb 0 q) then PosInfinity else NegInfinity in
  match a, b with
  | NaN, _ | _, NaN => NaN
  | Finite x, Finite y => Finite (x * y)
  | PosInfinity, Finite y | Finite y, PosInfinity => inf_times true y
  | NegInfinity, Finite y | Finite y, NegInfinity => inf_times false y
  | PosInfinity, PosInfinity | NegInfinity, NegInfinity => PosInfinity
  | PosInfinity, NegInfinity | NegInfinity, PosInfinity => NegInfinity
  end.

(** The integer part of a rational, rounding toward zero. *)
Definition truncate (q : Q) : Z := Z.quot (Qnum q) (Z.pos (Qden q)).

(** [ToInt16]: NaN and the infinities become 0; a finite number is
    truncated, reduced modulo [2^16] and read as a two's complement
    16-bit integer. *)
Definition ToInt16 (x : Number) : Z :=
  match x with
  | Finite q =>
      let int16bit := truncate q mod 2 ^ 16 in
      if 2 ^ 15 <=? int16bit then int16bit - 2 ^ 16 else int16bit
  | _ => 0
  end.

(** ** Typed arrays *)

(** [new Int16Array(n)]: [n] zeros. *)
Definition Int16Array_new (n : nat) : list Z := replicate n 0.

(** [a[i] = v] on an [Int16Array]: the value is converted with [ToInt16];
    a write outside the array is ignored. *)
Definition Int16Array_set (a : list Z) (i : nat) (v : Number) : list Z :=
  <[i := ToInt16 v]> a.

(** [a[i]] on a [Float32Array]: [undefined] outside the array, which the
    arithmetic that follows turns into NaN. *)
Definition Float32Array_get (a : list Number) (i : nat) : Number :=
  default NaN (a !! i).

(** ** ArrayBuffer and DataView

    [new ArrayBuffer(n)] is [n] zero bytes.  Every [DataView] setter
    writes a run of bytes at a byte offset and throws a [RangeError]
    ([None]) when the run does not fit. *)
Definition ArrayBuffer_new (n : nat) : list byte := replicate n (byte.of_Z 0).

Definition setBytes (view : list byte) (byteOffset : nat) (bs : list byte)
  : option (list byte) :=
  if decide (byteOffset + length bs ≤ length view)%nat
  then Some (take byteOffset view ++ bs ++ drop (byteOffset + length bs) view)
  else None.

(** [view.setUint8(o, v)], and the little-endian
    [view.setUint16(o, v, true)], [view.setUint32(o, v, true)] and
    [view.setInt16(o, v, true)] for an integer [v]: the value is reduced
    modulo [2^8], [2^16] or [2^32] and stored least significant byte
    first. *)
Definition setUint8 (view : list byte) (o : nat) (v : Z) := setBytes view o (le_split 1 v).
Definition setUint16 (view : list byte) (o : nat) (v : Z) := setBytes view o (le_split 2 v).
Definition setUint32 (view : list byte) (o : nat) (v : Z) := setBytes view o (le_split 4 v).
Definition setInt16 (view : list byte) (o : nat) (v : Z) := setBytes view o (le_split 2 v).

(** ** Blobs *)

Record Blob : Type := mkBlob {
  blobData : list byte;
  blobType : jsstring
}.

(** [blob.size] *)
Definition blobSize (b : Blob) : nat := length (blobData b).

(** [new Blob(parts, { type })] over blob parts: the bytes of the parts,
    concatenated in order. *)
Definition Blob_new (parts : list Blob) (type : jsstring) : Blob :=
  mkBlob (concat (blobData <$> parts)) type.

(** [new Blob([buffer], { type })] over one [ArrayBuffer]. *)
Definition Blob_of_buffer (buffer : list byte) (type : jsstring) : Blob :=
  mkBlob buffer type.

(* ===================================================================== *)
(** * The PCM/WAV encoder ([audioBufferToWav], part_001 lines 126-174) *)
(* ===================================================================== *)

(** An [AudioBuffer] always has at least one channel; the encoder reads
    channel 0 only. *)
Record AudioBuffer : Type := mkAudioBuffer {
  sampleRate : Z;
  channel0 : list Number;
  otherChannels : list (list Number)
}.

Definition getChannelData0 (audioBuffer : AudioBuffer) : list Number :=
  channel0 audioBuffer.

Definition numChannels : Z := 1.
Definition format : Z := 1.
Definition bitDepth : Z := 16.

(** Lines 137-138: the value assigned to [samples[i]]. *)
Definition scaleSample (x : Number) : Number :=
  let sample := Math_max (Finite (-1)) (Math_min (Finite 1) x) in
  if Number_ltb sample (Finite 0)
  then Number_mul sample (Finite 32768)
  else Number_mul sample (Finite 32767).

(** Lines 133-139: the conversion loop over the indices of the channel. *)
Definition convertSamples (channelData : list Number) : list Z :=
  foldl (fun samples i =>
           Int16Array_set samples i (scaleSample (Float32Array_get channelData i)))
        (Int16Array_new (length channelData))
        (seq 0 (length channelData)).

(** Lines 146-150: [writeString]. *)
Definition writeString (view : list byte) (offset : nat) (s : jsstring)
  : option (list byte) :=
  foldl (fun acc i => view' ← acc; setUint8 view' (offset + i) (charCodeAt s i))
        (Some view) (seq 0 (length s)).

(** Lines 167-171: the loop that writes the PCM samples, threading the
    view and the running offset. *)
Definition writeSamples (view : list byte) (samples : list Z) (offset : nat)
  : option (list byte * nat) :=
  foldl (fun acc i =>
           '(view', offset') ← acc;
           view'' ← setInt16 view' offset' (default 0 (samples !! i));
           Some (view'', (offset' + 2)%nat))
        (Some (view, offset)) (seq 0 (length samples)).

(** Lines 142-171: the bytes of the WAV file. *)
Definition wavBytes (sampleRate : Z) (samples : list Z) : option (list byte) :=
  let len := Z.of_nat (length samples) in
  let view := ArrayBuffer_new (44 + length samples * 2) in
  view ← writeString view 0 (js "RIFF");
  view ← setUint32 view 4 (36 + len * 2);
  view ← writeString view 8 (js "WAVE");
  view ← writeString view 12 (js "fmt ");
  view ← setUint32 view 16 16;
  view ← setUint16 view 20 format;
  view ← setUint16 view 22 numChannels;
  view ← setUint32 view 24 sampleRate;
  view ← setUint32 view 28 (sampleRate * numChannels * bitDepth / 8);
  view ← setUint16 view 32 (numChannels * bitDepth / 8);
  view ← setUint16 view 34 bitDepth;
  view ← writeString view 36 (js "data");
  view ← setUint32 view 40 (len * 2);
  fst <$> writeSamples view samples 44.

Definition audioBufferToWav (audioBuffer : AudioBuffer) : option Blob :=
  let sampleRate := sampleRate audioBuffer in
  let channelData := getChannelData0 audioBuffer in
  let samples := convertSamples channelData in
  buffer ← wavBytes sampleRate samples;
  Some (Blob_of_buffer buffer (js "audio/wav")).

(* ===================================================================== *)
(** * The chat component: state, platform and effects *)
(* ===================================================================== *)

(** [String.prototype.trim] removes the WhiteSpace and LineTerminator code
    points of ECMAScript from both ends; all of them are single code
    units. *)
Definition isWhiteSpace (c : N) : bool :=
  ((9 <=? c) && (c <=? 13) || (c =? 32) || (c =? 160) || (c =? 5760)
   || (8192 <=? c) && (c <=? 8202) || (c =? 8232) || (c =? 8233)
   || (c =? 8239) || (c =? 8287) || (c =? 12288) || (c =? 65279))%N.

Fixpoint trimStart (s : jsstring) : jsstring :=
  match s with
  | c :: s' => if isWhiteSpace c then trimStart s' else s
  | [] => []
  end.

Definition trimEnd (s : jsstring) : jsstring := reverse (trimStart (reverse s)).

Definition trim (s : jsstring) : jsstring := trimEnd (trimStart s).

(** A string is truthy when it is not empty. *)
Definition truthy (s : jsstring) : bool :=
  match s with [] => false | _ => true end.

(** The tracks of a [MediaStream], by their [readyState]. *)
Inductive ReadyState : Type := live | ended.

Abbreviation MediaStream := (list ReadyState).

(** A [MediaRecorder]: the stream it records (an index in the store of
    streams) and its [mimeType]. *)
Record MediaRecorder : Type := mkMediaRecorder {
  recStream : nat;
  recMimeType : jsstring
}.

Record AudioContext : Type := mkAudioContext { ctxSampleRate : Z }.

(** What the transcription collaborator answers. *)
Record TranscriptionResult : Type := mkResult {
  success : bool;
  text : jsstring;
  error : jsstring
}.

(** The outcome of a statement: a value, or a thrown error (a rejected
    promise at an [await]). *)
Inductive Completion (A : Type) : Type :=
  | Normal (a : A)
  | Throw (e : jsstring).
Arguments Normal {A} a.
Arguments Throw {A} e.

(** The calls the component makes that are visible outside it. *)
Inductive Call : Type :=
  | CallGetUserMedia
  | CallRecorderStart (recorder : MediaRecorder)
  | CallRecorderStop (recorder : MediaRecorder)
  | CallDecodeAudioData (data : list byte)
  | CallTranscribeAudio (audio : Blob)
  | CallAlert (message : jsstring)
  | CallConsoleError (label : jsstring)
  | CallOnSendMessage (message : jsstring).

(** The browser and the collaborators, as the component sees them. *)
Record Platform : Type := mkPlatform {
  (** [navigator.mediaDevices.getUserMedia]: the tracks of the granted
      stream, or the rejection. *)
  getUserMedia : Completion MediaStream;
  (** The recording types [MediaRecorder.isTypeSupported] accepts. *)
  supportedTypes : gset jsstring;
  (** [mediaRecorder.start()] may throw. *)
  recorderStartError : option jsstring;
  (** [new (window.AudioContext || window.webkitAudioContext)({ sampleRate })]:
      the context the platform builds when asked for that rate, or the
      error the constructor throws. *)
  audioContextNew : Z -> Completion AudioContext;
  (** [blob.arrayBuffer()] may reject. *)
  arrayBufferError : Blob -> option jsstring;
  (** The decoder behind [decodeAudioData]: channel 0 and the other
      channels of the decoded audio, or the rejection. *)
  decoder : list byte -> Completion (list Number * list (list Number));
  (** [transcribeAudio] of [../utils/api]. *)
  transcribeAudio : Blob -> Completion TranscriptionResult
}.

Definition isTypeSupported (P : Platform) (type : jsstring) : bool :=
  bool_decide (type ∈ supportedTypes P).

(** The state of the component and of the browser objects it holds:
    the three [useState] cells, the two refs, the store of media streams
    and the log of outside calls. *)
Record World : Type := mkWorld {
  inputText : jsstring;
  isRecording : bool;
  isTranscribing : bool;
  mediaRecorderRef : option MediaRecorder;
  audioChunksRef : list Blob;
  streams : list MediaStream;
  calls : list Call
}.

(** The props of the component ([onSendMessage] is logged as a call, and
    [messages] is only displayed). *)
Record Props : Type := mkProps { isLoading : bool }.

(** ** The monad of handlers: state and exceptions *)

Definition M (A : Type) : Type := World -> Completion A * World.

#[global] Instance M_ret : MRet M := fun A a w => (Normal a, w).

#[global] Instance M_bind : MBind M := fun A B f m w =>
  match m w with
  | (Normal a, w') => f a w'
  | (Throw e, w') => (Throw e, w')
  end.

Definition throw {A : Type} (e : jsstring) : M A := fun w => (Throw e, w).

(** [try { body } catch (error) { handler error }] *)
Definition try_catch {A : Type} (body : M A) (handler : jsstring -> M A) : M A :=
  fun w =>
    match body w with
    | (Normal a, w') => (Normal a, w')
    | (Throw e, w') => handler e w'
    end.

(** [try { body } finally { final }] *)
Definition try_finally {A : Type} (body : M A) (final : M unit) : M A :=
  fun w =>
    match body w with
    | (c, w') =>
        match final w' with
        | (Normal _, w'') => (c, w'')
        | (Throw e, w'') => (Throw e, w'')
        end
    end.

(** Lifting an outcome chosen by the platform. *)
Definition complete {A : Type} (c : Completion A) : M A := fun w => (c, w).

Definition raise_if (e : option jsstring) : M unit :=
  match e with
  | Some err => throw err
  | None => mret tt
  end.

Definition get {A : Type} (f : World -> A) : M A := fun w => (Normal (f w), w).

Definition modify (f : World -> World) : M unit := fun w => (Normal tt, f w).

(** ** State updates *)

Definition with_inputText (v : jsstring) (w : World) : World :=
  mkWorld v (isRecording w) (isTranscribing w) (mediaRecorderRef w)
    (audioChunksRef w) (streams w) (calls w).
Definition with_isRecording (v : bool) (w : World) : World :=
  mkWorld (inputText w) v (isTranscribing w) (mediaRecorderRef w)
    (audioChunksRef w) (streams w) (calls w).
Definition with_isTranscribing (v : bool) (w : World) : World :=
  mkWorld (inputText w) (isRecording w) v (mediaRecorderRef w)
    (audioChunksRef w) (streams w) (calls w).
Definition with_mediaRecorderRef (v : option MediaRecorder) (w : World) : World :=
  mkWorld (inputText w) (isRecording w) (isTranscribing w) v
    (audioChunksRef w) (streams w) (calls w).
Definition with_audioChunksRef (v : list Blob) (w : World) : World :=
  mkWorld (inputText w) (isRecording w) (isTranscribing w) (mediaRecorderRef w)
    v (streams w) (calls w).
Definition with_streams (v : list MediaStream) (w : World) : World :=
  mkWorld (inputText w) (isRecording w) (isTranscribing w) (mediaRecorderRef w)
    (audioChunksRef w) v (calls w).
Definition with_calls (v : list Call) (w : World) : World :=
  mkWorld (inputText w) (isRecording w) (isTranscribing w) (mediaRecorderRef w)
    (audioChunksRef w) (streams w) v.

Definition setInputText (v : jsstring) : M unit := modify (with_inputText v).
Definition setIsRecording (v : bool) : M unit := modify (with_isRecording v).
Definition setIsTranscribing (v : bool) : M unit := modify (with_isTranscribing v).

Definition call (c : Call) : M unit :=
  modify (fun w => with_calls (calls w ++ [c]) w).

Definition alert (message : jsstring) : M unit := call (CallAlert message).
Definition console_error (label : jsstring) : M unit := call (CallConsoleError label).

(** ** Platform calls *)

(** [await navigator.mediaDevices.getUserMedia(...)]: on success a new
    stream object enters the store and its index is returned. *)
Definition navigator_getUserMedia (P : Platform) : M nat :=
  call CallGetUserMedia;;
  tracks ← complete (getUserMedia P);
  stream ← get (fun w => length (streams w));
  modify (fun w => with_streams (streams w ++ [tracks]) w);;
  mret stream.

(** [new MediaRecorder(stream, { mimeType })] throws a
    [NotSupportedError] for a type the platform cannot record. *)
Definition MediaRecorder_new (P : Platform) (stream : nat) (mimeType : jsstring)
  : M MediaRecorder :=
  if isTypeSupported P mimeType
  then mret (mkMediaRecorder stream mimeType)
  else throw (js "NotSupportedError").

(** [new MediaRecorder(stream)]: the platform's default type, reported
    as the empty string. *)
Definition MediaRecorder_default (stream : nat) : M MediaRecorder :=
  mret (mkMediaRecorder stream []).

Definition MediaRecorder_start (P : Platform) (recorder : MediaRecorder) : M unit :=
  call (CallRecorderStart recorder);;
  raise_if (recorderStartError P).

(** [recorder.stop()] on a recorder that is recording: the browser then
    fires [dataavailable] with the pending data and [stop]. *)
Definition MediaRecorder_stop (recorder : MediaRecorder) : M unit :=
  call (CallRecorderStop recorder).

(** [stream.getTracks().forEach(track => track.stop())] *)
Definition stopTracks (stream : nat) : M unit :=
  modify (fun w => with_streams (alter (fmap (fun _ => ended)) stream (streams w)) w).

(** [new (window.AudioContext || window.webkitAudioContext)({ sampleRate })] *)
Definition AudioContext_new (P : Platform) (rate : Z) : M AudioContext :=
  complete (audioContextNew P rate).

(** [await blob.arrayBuffer()] *)
Definition Blob_arrayBuffer (P : Platform) (blob : Blob) : M (list byte) :=
  raise_if (arrayBufferError P blob);;
  mret (blobData blob).

(** [await audioContext.decodeAudioData(arrayBuffer)]: the decoded
    buffer is at the sample rate of the context. *)
Definition decodeAudioData (P : Platform) (audioContext : AudioContext)
    (arrayBuffer : list byte) : M AudioBuffer :=
  call (CallDecodeAudioData arrayBuffer);;
  '(c0, cs) ← complete (decoder P arrayBuffer);
  mret (mkAudioBuffer (ctxSampleRate audioContext) c0 cs).

(** [await transcribeAudio(blob)] *)
Definition api_transcribeAudio (P : Platform) (blob : Blob) : M TranscriptionResult :=
  call (CallTranscribeAudio blob);;
  complete (transcribeAudio P blob).

(* ===================================================================== *)
(** * The handlers of [ChatInterface] (part_001) *)
(* ===================================================================== *)

(** Lines 26-31.  The same text in part_002. *)
Definition handleSendText (props : Props) : M unit :=
  inputText ← get inputText;
  if truthy (trim inputText) && negb (isLoading props)
  then call (CallOnSendMessage (trim inputText));; setInputText []
  else mret tt.

(** Lines 55-63: the recording type handed to the recorder. *)
Definition recorderOptions (supported : gset jsstring) : jsstring :=
  if bool_decide (js "audio/wav" ∈ supported) then js "audio/wav"
  else if bool_decide (js "audio/webm;codecs=opus" ∈ supported)
       then js "audio/webm;codecs=opus"
       else js "audio/webm".

(** Lines 189-204.  The same text in part_002 (lines 84-99). *)
Definition handleAudioTranscription (P : Platform) (audioBlob : Blob) : M unit :=
  setIsTranscribing true;;
  try_finally
    (try_catch
       (result ← api_transcribeAudio P audioBlob;
        if success result
        then setInputText (text result)
        else alert (js "Could not transcribe audio: " ++ error result))
       (fun _ =>
          console_error (js "Transcription error:");;
          alert (js "Transcription failed. Please try again.")))
    (setIsTranscribing false).

(** Lines 94-121. *)
Definition convertToWavAndTranscribe (P : Platform) (audioBlob : Blob) (stream : nat)
  : M unit :=
  try_catch
    (audioContext ← AudioContext_new P 16000;
     arrayBuffer ← Blob_arrayBuffer P audioBlob;
     audioBuffer ← decodeAudioData P audioContext arrayBuffer;
     wavBlob ← from_option mret (throw (js "RangeError")) (audioBufferToWav audioBuffer);
     handleAudioTranscription P wavBlob;;
     stopTracks stream)
    (fun _ =>
       console_error (js "Error converting audio:");;
       alert (js "Error processing audio. Please try again.");;
       stopTracks stream).

(** Lines 70-74: [mediaRecorder.ondataavailable]. *)
Definition ondataavailable (data : Blob) : M unit :=
  if (0 <? blobSize data)%nat
  then modify (fun w => with_audioChunksRef (audioChunksRef w ++ [data]) w)
  else mret tt.

(** Lines 76-81: [mediaRecorder.onstop], a closure over the recorder and
    the stream of the [startRecording] call that installed it. *)
Definition onstop (P : Platform) (mediaRecorder : MediaRecorder) (stream : nat) : M unit :=
  chunks ← get audioChunksRef;
  let audioBlob := Blob_new chunks (recMimeType mediaRecorder) in
  convertToWavAndTranscribe P audioBlob stream.

(** Lines 46-89. *)
Definition startRecording (P : Platform) : M unit :=
  try_catch
    (stream ← navigator_getUserMedia P;
     let options := recorderOptions (supportedTypes P) in
     mediaRecorder ← MediaRecorder_new P stream options;
     modify (with_mediaRecorderRef (Some mediaRecorder));;
     modify (with_audioChunksRef []);;
     MediaRecorder_start P mediaRecorder;;
     setIsRecording true)
    (fun _ =>
       console_error (js "Error accessing microphone:");;
       alert (js "Could not access microphone. Please check permissions.")).

(** Lines 179-184.  The same text in part_002 (lines 74-79). *)
Definition stopRecording : M unit :=
  mediaRecorder ← get mediaRecorderRef;
  recording ← get isRecording;
  match mediaRecorder : option MediaRecorder with
  | Some recorder =>
      if recording : bool
      then MediaRecorder_stop recorder;; setIsRecording false
      else mret tt
  | None => mret tt
  end.

(** [startRecording] is an [async] function.  A call runs it up to the
    [await] of line 48, where the microphone request has been made, and
    returns; the rest of the body runs later, when the request settles.
    [startRecording_requested] is the part run by the call and
    [startRecording_settled] the part run on settlement. *)
Definition startRecording_requested : M unit := call CallGetUserMedia.

Definition startRecording_settled (P : Platform) : M unit :=
  try_catch
    (tracks ← complete (getUserMedia P);
     stream ← get (fun w => length (streams w));
     modify (fun w => with_streams (streams w ++ [tracks]) w);;
     let options := recorderOptions (supportedTypes P) in
     mediaRecorder ← MediaRecorder_new P stream options;
     modify (with_mediaRecorderRef (Some mediaRecorder));;
     modify (with_audioChunksRef []);;
     MediaRecorder_start P mediaRecorder;;
     setIsRecording true)
    (fun _ =>
       console_error (js "Error accessing microphone:");;
       alert (js "Could not access microphone. Please check permissions.")).

(** Lines 209-215.  [startRecording()] is called without [await], so
    the handler returns as soon as the microphone request is made.  The
    result tells whether the call left a [startRecording] suspended. *)
Definition toggleRecording : M bool :=
  recording ← get isRecording;
  if recording : bool
  then stopRecording;; mret false
  else startRecording_requested;; mret true.

(** What a suspended [startRecording] does when its request settles. *)
Definition settle (P : Platform) (suspended : bool) : M unit :=
  if suspended then startRecording_settled P else mret tt.

(** Two presses of the microphone button: the request of the first
    settles before the second press, or the second press comes while
    that request is pending and both requests settle afterwards. *)
Definition pressesSettledBetween (P : Platform) : M unit :=
  first ← toggleRecording;
  settle P first;;
  second ← toggleRecording;
  settle P second.

Definition pressesWhilePending (P : Platform) : M unit :=
  first ← toggleRecording;
  second ← toggleRecording;
  settle P first;;
  settle P second.

(** A [keypress] event: the key and the state of Shift. *)
Record KeyboardEvent : Type := mkKeyboardEvent {
  key : jsstring;
  shiftKey : bool
}.

(** Lines 36-41 (the same text in part_002).  The handler's effect on
    the event is returned: whether [e.preventDefault()] was called. *)
Definition handleKeyPress (props : Props) (e : KeyboardEvent) : M bool :=
  if bool_decide (key e = js "Enter") && negb (shiftKey e)
  then handleSendText props;; mret true
  else mret false.

(** The [dataavailable] events of a recording, in the order the browser
    fires them. *)
Fixpoint dataEvents (handler : Blob -> M unit) (chunks : list Blob) : M unit :=
  match chunks with
  | [] => mret tt
  | data :: rest => handler data;; dataEvents handler rest
  end.

(* ===================================================================== *)
(** * The earlier revision of the recording handlers (part_002) *)
(* ===================================================================== *)

Module Legacy.

(** Lines 53-55. *)
Definition ondataavailable (data : Blob) : M unit :=
  modify (fun w => with_audioChunksRef (audioChunksRef w ++ [data]) w).

(** Lines 57-61. *)
Definition onstop (P : Platform) (stream : nat) : M unit :=
  chunks ← get audioChunksRef;
  let audioBlob := Blob_new chunks (js "audio/wav") in
  handleAudioTranscription P audioBlob;;
  stopTracks stream.

(** Lines 46-69. *)
Definition startRecording (P : Platform) : M unit :=
  try_catch
    (stream ← navigator_getUserMedia P;
     mediaRecorder ← MediaRecorder_default stream;
     modify (with_mediaRecorderRef (Some mediaRecorder));;
     modify (with_audioChunksRef []);;
     MediaRecorder_start P mediaRecorder;;
     setIsRecording true)
    (fun _ =>
       console_error (js "Error accessing microphone:");;
       alert (js "Could not access microphone. Please check permissions.")).

End Legacy.

(* ===================================================================== *)
(** * Reading a WAV file back

    The encoder has no decoder in the repository; the round-trip
    properties are stated against this reader of the canonical 44-byte
    header layout and of a 16-bit little-endian PCM payload. *)
(* ===================================================================== *)

Definition readBytes (buffer : list byte) (offset n : nat) : list byte :=
  take n (drop offset buffer).

Definition readUint16 (buffer : list byte) (offset : nat) : Z :=
  le_combine (readBytes buffer offset 2).

Definition readUint32 (buffer : list byte) (offset : nat) : Z :=
  le_combine (readBytes buffer offset 4).

Definition readTag (buffer : list byte) (offset : nat) : jsstring :=
  (fun b => Z.to_N (byte.unsigned b)) <$> readBytes buffer offset 4.

(** A 16-bit word read as a two's complement integer. *)
Definition signed16 (u : Z) : Z := if 2 ^ 15 <=? u then u - 2 ^ 16 else u.

Record WavHeader : Type := mkWavHeader {
  chunkId : jsstring;
  chunkSize : Z;
  waveId : jsstring;
  subchunk1Id : jsstring;
  subchunk1Size : Z;
  audioFormat : Z;
  channelCount : Z;
  samplesPerSec : Z;
  byteRate : Z;
  blockAlign : Z;
  bitsPerSample : Z;
  subchunk2Id : jsstring;
  subchunk2Size : Z
}.

Definition parseHeader (buffer : list byte) : option WavHeader :=
  if decide (44 ≤ length buffer)%nat
  then Some (mkWavHeader
               (readTag buffer 0) (readUint32 buffer 4) (readTag buffer 8)
               (readTag buffer 12) (readUint32 buffer 16)
               (readUint16 buffer 20) (readUint16 buffer 22)
               (readUint32 buffer 24) (readUint32 buffer 28)
               (readUint16 buffer 32) (readUint16 buffer 34)
               (readTag buffer 36) (readUint32 buffer 40))
  else None.

(** The 16-bit little-endian words of a payload. *)
Fixpoint parseSamples (payload : list byte) : list Z :=
  match payload with
  | b0 :: b1 :: rest => signed16 (le_combine [b0; b1]) :: parseSamples rest
  | _ => []
  end.

(** The inverse of the encoder's scaling. *)
Definition dequantize (v : Z) : Q :=
  if v <? 0 then v # 32768 else v # 32767.

Definition decodeWav (buffer : list byte) : list Q :=
  dequantize <$> parseSamples (drop 44 buffer).

(** ** The encoder as the specification words it *)

(** Clamp to [[-1, 1]]. *)
Definition clamp (s : Q) : Q := Qmax (-1) (Qmin 1 s).

(** Scale a clamped value: by 32768 when negative, by 32767 otherwise,
    rounding toward zero. *)
Definition quantize (c : Q) : Z :=
  if Qltb c 0 then truncate (c * 32768) else truncate (c * 32767).

(** One quantization step at a sample. *)
Definition quantizationStep (s : Q) : Q :=
  if Qltb s 0 then 1 # 32768 else 1 # 32767.

(** The 44 bytes the specification lists for a payload of [n] samples. *)
Definition asciiBytes (s : jsstring) : list byte :=
  (fun c => byte.of_Z (Z.of_N c)) <$> s.

Definition wavHeader (sampleRate : Z) (n : nat) : list byte :=
  asciiBytes (js "RIFF") ++ le_split 4 (36 + Z.of_nat n * 2)
  ++ asciiBytes (js "WAVE") ++ asciiBytes (js "fmt ")
  ++ le_split 4 16 ++ le_split 2 1 ++ le_split 2 1
  ++ le_split 4 sampleRate ++ le_split 4 (sampleRate * 2)
  ++ le_split 2 2 ++ le_split 2 16
  ++ asciiBytes (js "data") ++ le_split 4 (Z.of_nat n * 2).

(** The thirteen fields of the header, in file order. *)
Definition headerFields (rate : Z) (n : nat) : list (list byte) :=
  [ asciiBytes (js "RIFF"); le_split 4 (36 + Z.of_nat n * 2);
    asciiBytes (js "WAVE"); asciiBytes (js "fmt ");
    le_split 4 16; le_split 2 1; le_split 2 1;
    le_split 4 rate; le_split 4 (rate * 2);
    le_split 2 2; le_split 2 16;
    asciiBytes (js "data"); le_split 4 (Z.of_nat n * 2) ].


(* ===================================================================== *)
(** * Capture sessions *)
(* ===================================================================== *)

(** One start/stop cycle as the browser drives it: the recording starts,
    chunks may arrive, the user stops, the recorder delivers what is
    pending, and then fires [stop].  [recorder] and [stream] are the
    objects the [onstop] closure captured at start. *)
Definition recordingSession (P : Platform) (recorder : MediaRecorder) (stream : nat)
    (early late : list Blob) : M unit :=
  startRecording P;;
  dataEvents ondataavailable early;;
  stopRecording;;
  dataEvents ondataavailable late;;
  onstop P recorder stream.

Definition legacySession (P : Platform) (stream : nat) (early late : list Blob) : M unit :=
  Legacy.startRecording P;;
  dataEvents Legacy.ondataavailable early;;
  stopRecording;;
  dataEvents Legacy.ondataavailable late;;
  Legacy.onstop P stream.

(** A concrete platform for the examples: a browser that grants a one-track stream, records WebM only, decodes
    every recording to two samples and transcribes it. *)
Definition samplePlatform : Platform :=
  mkPlatform (Normal [live])
    ({[ js "audio/webm;codecs=opus" ]} ∪ {[ js "audio/webm" ]})
    None (fun rate => Normal (mkAudioContext rate)) (fun _ => None)
    (fun _ => Normal ([Finite (1 # 2); Finite (-1)], []))
    (fun _ => Normal (mkResult true (js "hello") [])).

Definition initialWorld : World := mkWorld [] false false None [] [] [].

Definition sampleChunk : Blob := mkBlob [byte.of_Z 26; byte.of_Z 69] [].

(** A browser that refuses the microphone. *)
Definition deniedPlatform : Platform :=
  mkPlatform (Throw (js "NotAllowedError")) ∅ None
    (fun rate => Normal (mkAudioContext rate)) (fun _ => None)
    (fun _ => Throw (js "EncodingError"))
    (fun _ => Throw (js "Network Error")).

(** A browser that grants the microphone but records no type the
    component asks for. *)
Definition unrecordablePlatform : Platform :=
  mkPlatform (Normal [live; live]) ∅ None
    (fun rate => Normal (mkAudioContext rate)) (fun _ => None)
    (fun _ => Throw (js "EncodingError"))
    (fun _ => Throw (js "Network Error")).

(** The sample platform in a browser whose audio context runs at
    48 kHz whatever rate is asked for (the prefixed [webkitAudioContext]
    that line 97 falls back to takes no options). *)
Definition prefixedContextPlatform : Platform :=
  mkPlatform (getUserMedia samplePlatform) (supportedTypes samplePlatform)
    (recorderStartError samplePlatform) (fun _ => Normal (mkAudioContext 48000))
    (arrayBufferError samplePlatform) (decoder samplePlatform)
    (transcribeAudio samplePlatform).

(** The sample platform with a decoder that rejects every recording. *)
Definition undecodablePlatform : Platform :=
  mkPlatform (getUserMedia samplePlatform) (supportedTypes samplePlatform)
    (recorderStartError samplePlatform) (audioContextNew samplePlatform)
    (arrayBufferError samplePlatform)
    (fun _ => Throw (js "EncodingError"))
    (transcribeAudio samplePlatform).


(** ** Reading the log of outside calls *)

(** The messages shown with [alert], in order. *)
Definition alerts (cs : list Call) : list jsstring :=
  omap (fun c => match c with CallAlert message => Some message | _ => None end) cs.

(** The blobs handed to [transcribeAudio], in order. *)
Definition uploads (cs : list Call) : list Blob :=
  omap (fun c => match c with CallTranscribeAudio audio => Some audio | _ => None end) cs.

(** The byte strings handed to [decodeAudioData], in order. *)
Definition decodeRequests (cs : list Call) : list (list byte) :=
  omap (fun c => match c with CallDecodeAudioData data => Some data | _ => None end) cs.

(** The recorders that were asked to stop, in order. *)
Definition stopRequests (cs : list Call) : list MediaRecorder :=
  omap (fun c => match c with CallRecorderStop recorder => Some recorder | _ => None end) cs.

(* ===================================================================== *)
(** * The API helpers ([utils/api.js]) and the [App] component (part_000) *)
(* ===================================================================== *)

Module App.

(** What an axios call comes to: the body of the response, or an error;
    of the error the helpers read [error.response?.data?.detail] only
    (absent when there is no response or no such field). *)
Inductive AxiosOutcome (A : Type) : Type :=
  | Response (data : A)
  | Failure (detail : option jsstring).
Arguments Response {A} data.
Arguments Failure {A} detail.

(** The body of a chat answer. *)
Record ChatResponse : Type := mkChatResponse {
  text : jsstring;
  emotion : jsstring
}.

Record Health : Type := mkHealth {
  status : jsstring;
  rag_ready : bool
}.

(** The requests and log lines the helpers and the component emit. *)
Inductive Effect : Type :=
  | PostJson (url : jsstring) (body : list (jsstring * jsstring)) (timeout : Z)
  | PostForm (url field : jsstring) (file : Blob) (filename : jsstring) (timeout : Z)
  | GetJson (url : jsstring) (timeout : Z)
  | ConsoleError (label : jsstring).

(** The backend behind axios, and the clock read by [new Date()] before
    and after the chat request. *)
Record Backend : Type := mkBackend {
  postChat : list (jsstring * jsstring) -> AxiosOutcome ChatResponse;
  postTranscribe : Blob -> AxiosOutcome TranscriptionResult;
  getHealth : AxiosOutcome Health;
  clockBefore : Z;
  clockAfter : Z
}.

(** A chat message of [App]'s list ([role], [text], [emotion],
    [timestamp]); the user's messages carry no emotion. *)
Record Message : Type := mkMessage {
  msgRole : jsstring;
  msgText : jsstring;
  msgEmotion : option jsstring;
  msgTimestamp : Z
}.

(** The four [useState] cells of [App] and the effects emitted so far. *)
Record State : Type := mkState {
  messages : list Message;
  currentEmotion : jsstring;
  isSpeaking : bool;
  isLoading : bool;
  effects : list Effect
}.

Definition AppM (A : Type) : Type := State -> Completion A * State.

#[global] Instance AppM_ret : MRet AppM := fun A a s => (Normal a, s).

#[global] Instance AppM_bind : MBind AppM := fun A B f m s =>
  match m s with
  | (Normal a, s') => f a s'
  | (Throw e, s') => (Throw e, s')
  end.

Definition throw {A : Type} (e : jsstring) : AppM A := fun s => (Throw e, s).

Definition try_catch {A : Type} (body : AppM A) (handler : jsstring -> AppM A) : AppM A :=
  fun s =>
    match body s with
    | (Normal a, s') => (Normal a, s')
    | (Throw e, s') => handler e s'
    end.

Definition try_finally {A : Type} (body : AppM A) (final : AppM unit) : AppM A :=
  fun s =>
    match body s with
    | (c, s') =>
        match final s' with
        | (Normal _, s'') => (c, s'')
        | (Throw e, s'') => (Throw e, s'')
        end
    end.

Definition modify (f : State -> State) : AppM unit := fun s => (Normal tt, f s).

Definition emit (e : Effect) : AppM unit :=
  modify (fun s => mkState (messages s) (currentEmotion s) (isSpeaking s) (isLoading s)
                     (effects s ++ [e])).

Definition setMessages (f : list Message -> list Message) : AppM unit :=
  modify (fun s => mkState (f (messages s)) (currentEmotion s) (isSpeaking s)
                     (isLoading s) (effects s)).
Definition setCurrentEmotion (v : jsstring) : AppM unit :=
  modify (fun s => mkState (messages s) v (isSpeaking s) (isLoading s) (effects s)).
Definition setIsSpeaking (v : bool) : AppM unit :=
  modify (fun s => mkState (messages s) (currentEmotion s) v (isLoading s) (effects s)).
Definition setIsLoading (v : bool) : AppM unit :=
  modify (fun s => mkState (messages s) (currentEmotion s) (isSpeaking s) v (effects s)).

(** ** [utils/api.js] (the second part of [utils/tts.js] as stored) *)

Definition API_BASE_URL : jsstring := js "http://localhost:8000".

(** [error.response?.data?.detail || fallback]: an absent or empty
    detail gives the fallback. *)
Definition detail_or (detail : option jsstring) (fallback : jsstring) : jsstring :=
  match detail with
  | Some d => if truthy d then d else fallback
  | None => fallback
  end.

(** The request of [apiClient.post(path, body)] (base URL and the 30 s
    timeout of the client), then its outcome. *)
Definition apiClient_post {A : Type} (path : jsstring) (body : list (jsstring * jsstring))
    (outcome : AxiosOutcome A) : AppM (AxiosOutcome A) :=
  emit (PostJson (API_BASE_URL ++ path) body 30000);; mret outcome.

(** Lines 150-161 of the file: [sendChatMessage(message, sessionId = 'default')]. *)
Definition sendChatMessage (B : Backend) (message : jsstring) (sessionId : option jsstring)
  : AppM ChatResponse :=
  let body := [(js "message", message); (js "session_id", default (js "default") sessionId)] in
  outcome ← apiClient_post (js "/chat") body (postChat B body);
  match outcome with
  | Response data => mret data
  | Failure detail =>
      emit (ConsoleError (js "Chat error:"));;
      throw (detail_or detail (js "Failed to send message"))
  end.

(** Lines 168-189: [transcribeAudio(audioBlob)]. *)
Definition transcribeAudio (B : Backend) (audioBlob : Blob) : AppM TranscriptionResult :=
  emit (PostForm (API_BASE_URL ++ js "/transcribe") (js "audio") audioBlob
          (js "recording.wav") 60000);;
  match postTranscribe B audioBlob with
  | Response data => mret data
  | Failure detail =>
      emit (ConsoleError (js "Transcription error:"));;
      throw (detail_or detail (js "Failed to transcribe audio"))
  end.

(** Lines 195-203: [checkHealth()]. *)
Definition checkHealth (B : Backend) : AppM Health :=
  emit (GetJson (API_BASE_URL ++ js "/health") 30000);;
  match getHealth B with
  | Response data => mret data
  | Failure _ =>
      emit (ConsoleError (js "Health check error:"));;
      mret (mkHealth (js "offline") false)
  end.

(** ** [App] (part_000) *)

(** Lines 21-63: [handleSendMessage]. *)
Definition handleSendMessage (B : Backend) (messageText : jsstring) : AppM unit :=
  let userMessage := mkMessage (js "user") messageText None (clockBefore B) in
  setMessages (fun prev => prev ++ [userMessage]);;
  setIsLoading true;;
  try_finally
    (try_catch
       (response ← sendChatMessage B messageText None;
        let aiMessage :=
          mkMessage (js "assistant") (text response) (Some (emotion response))
            (clockAfter B) in
        setMessages (fun prev => prev ++ [aiMessage]);;
        setCurrentEmotion (emotion response);;
        setIsSpeaking true)
       (fun _ =>
          emit (ConsoleError (js "Error sending message:"));;
          let errorMessage :=
            mkMessage (js "assistant")
              (js "Sorry, I encountered an error. Please try again.")
              (Some (js "confused")) (clockAfter B) in
          setMessages (fun prev => prev ++ [errorMessage]);;
          setCurrentEmotion (js "confused")))
    (setIsLoading false).

(** Lines 68-71: [handleSpeechEnd]. *)
Definition handleSpeechEnd : AppM unit :=
  setIsSpeaking false;;
  setCurrentEmotion (js "neutral").

(** The chat requests among the effects, by their bodies. *)
Definition chatRequests (es : list Effect) : list (list (jsstring * jsstring)) :=
  omap (fun e => match e with
                 | PostJson url body _ =>
                     if bool_decide (url = API_BASE_URL ++ js "/chat") then Some body else None
                 | _ => None
                 end) es.

End App.

(* ===================================================================== *)
(** * String replacement, speech ([utils/tts.js]), the mascot, message markup *)
(* ===================================================================== *)

(** [s.replace(/C{min,}/g, rep)] for a class [C] of code units and
    [min >= 1] (the patterns [\n\n+] and [\s+] of the source): scanning
    left to right, each maximal run of at least [min] code units of the
    class is replaced by [rep]; [run] is the run being read. *)
Fixpoint replaceRuns (p : N -> bool) (min : nat) (rep run s : jsstring) : jsstring :=
  let flush := if (min <=? length run)%nat then rep else run in
  match s with
  | [] => flush
  | c :: s' =>
      if p c then replaceRuns p min rep (run ++ [c]) s'
      else flush ++ c :: replaceRuns p min rep [] s'
  end.

(** [s.replace(/C/g, rep)]: every code unit of the class is replaced. *)
Fixpoint replaceEach (p : N -> bool) (rep s : jsstring) : jsstring :=
  match s with
  | [] => []
  | c :: s' => (if p c then rep else [c]) ++ replaceEach p rep s'
  end.

(** [s.replace(/pat/g, '')] for a literal, non-empty [pat]: the
    occurrences found left to right, without overlap, are deleted;
    [skip] counts the code units of the current occurrence still to
    drop. *)
Fixpoint removeAll (pat : jsstring) (skip : nat) (s : jsstring) : jsstring :=
  match s with
  | [] => []
  | c :: s' =>
      match skip with
      | S k => removeAll pat k s'
      | O =>
          if bool_decide (pat `prefix_of` s)
          then removeAll pat (length pat - 1) s'
          else c :: removeAll pat 0 s'
      end
  end.

(** [s.startsWith(t)] and [s.includes(t)]. *)
Definition startsWith (s t : jsstring) : bool := bool_decide (t `prefix_of` s).

Fixpoint includes (s t : jsstring) : bool :=
  bool_decide (t `prefix_of` s)
  || match s with
     | [] => false
     | _ :: s' => includes s' t
     end.

Definition isLineFeed (c : N) : bool := (c =? 10)%N.

(** No whitespace but single U+0020 separators: a whitespace code unit
    is a space and is followed, if by anything, by a code unit that is
    not whitespace. *)
Fixpoint singleSpaced (s : jsstring) : Prop :=
  match s with
  | [] => True
  | a :: t =>
      (isWhiteSpace a = true ->
       a = 32%N /\ forall b, head t = Some b -> isWhiteSpace b = false)
      /\ singleSpaced t
  end.

Module Tts.

Record Voice : Type := mkVoice {
  lang : jsstring;
  name : jsstring
}.

(** A [SpeechSynthesisUtterance]: its text, the three settings and the
    voice ([null] until one is assigned). *)
Record Utterance : Type := mkUtterance {
  utteranceText : jsstring;
  rate : Q;
  pitch : Q;
  volume : Q;
  voice : option Voice
}.

Inductive Effect : Type :=
  | Cancel
  | Speak (utterance : Utterance)
  | OnEnd
  | ConsoleWarn (message : jsstring)
  | ConsoleError (label : jsstring).

(** The module variable [currentUtterance] and the effects so far. *)
Record State : Type := mkState {
  currentUtterance : option Utterance;
  effects : list Effect
}.

Definition emit (e : Effect) (s : State) : State :=
  mkState (currentUtterance s) (effects s ++ [e]).

Definition setCurrentUtterance (u : option Utterance) (s : State) : State :=
  mkState u (effects s).

(** Lines 12-31.  [markdown] stands for the seven regular-expression
    passes of lines 16-22, which are not modelled; lines 25-28 follow. *)
Definition cleanTextForSpeech (markdown : jsstring -> jsstring) (text : jsstring)
  : jsstring :=
  let cleaned := markdown text in
  let cleaned := replaceRuns isLineFeed 2 (js ". ") [] cleaned in
  let cleaned := replaceEach isLineFeed (js " ") cleaned in
  let cleaned := replaceRuns isWhiteSpace 1 (js " ") [] cleaned in
  trim cleaned.

(** Lines 62-64: the first English voice whose name contains "Female",
    else the first English voice, else none. *)
Definition isEnglish (v : Voice) : bool := startsWith (lang v) (js "en").
Definition isFemale (v : Voice) : bool := includes (name v) (js "Female").

Definition preferredVoice (voices : list Voice) : option Voice :=
  match find (fun v => isEnglish v && isFemale v) voices with
  | Some v => Some v
  | None => find isEnglish voices
  end.

(** Lines 89-94.  [speechSynthesis] is the list [getVoices()] returns
    when the browser has speech synthesis, [None] when it has not. *)
Definition stopSpeaking (speechSynthesis : option (list Voice)) (s : State) : State :=
  let s := match speechSynthesis with Some _ => emit Cancel s | None => s end in
  setCurrentUtterance None s.

(** [if (onEnd) onEnd()] *)
Definition callOnEnd (onEnd : bool) (s : State) : State :=
  if onEnd then emit OnEnd s else s.

(** Lines 38-84.  [onEnd] tells whether a callback was passed. *)
Definition speakText (speechSynthesis : option (list Voice))
    (markdown : jsstring -> jsstring) (text : jsstring) (onEnd : bool) (s : State)
  : State :=
  let s := stopSpeaking speechSynthesis s in
  match speechSynthesis with
  | None =>
      let s := emit (ConsoleWarn (js "Speech synthesis not supported")) s in
      callOnEnd onEnd s
  | Some voices =>
      let cleanedText := cleanTextForSpeech markdown text in
      let utterance := mkUtterance cleanedText 1 1 1 None in
      let utterance :=
        match preferredVoice voices with
        | Some v =>
            mkUtterance (utteranceText utterance) (rate utterance) (pitch utterance)
              (volume utterance) (Some v)
        | None => utterance
        end in
      let s := setCurrentUtterance (Some utterance) s in
      emit (Speak utterance) s
  end.

(** Lines 71-74 and 76-80: the [onend] and [onerror] handlers that
    [speakText] installs on the utterance. *)
Definition onend (onEnd : bool) (s : State) : State :=
  callOnEnd onEnd (setCurrentUtterance None s).

Definition onerror (onEnd : bool) (s : State) : State :=
  let s := emit (ConsoleError (js "Speech synthesis error:")) s in
  callOnEnd onEnd (setCurrentUtterance None s).

(** How many times the completion callback ran, and what was spoken. *)
Definition onEndCalls (es : list Effect) : nat :=
  length (omap (fun e => match e with OnEnd => Some tt | _ => None end) es).

Definition spoken (es : list Effect) : list Utterance :=
  omap (fun e => match e with Speak u => Some u | _ => None end) es.

End Tts.

Module Mascot.

(** The properties every object literal inherits from
    [Object.prototype]; a lookup by one of these names finds a function
    or an object, not a string of the literal. *)
Definition objectPrototypeKeys : list jsstring :=
  [ js "constructor"; js "hasOwnProperty"; js "isPrototypeOf";
    js "propertyIsEnumerable"; js "toLocaleString"; js "toString"; js "valueOf";
    js "__defineGetter__"; js "__defineSetter__"; js "__lookupGetter__";
    js "__lookupSetter__"; js "__proto__" ].

(** [table[k] || fallback] on an object literal of string values:
    [None] when the lookup yields an inherited member. *)
Definition lookup_or (table : list (jsstring * jsstring)) (k fallback : jsstring)
  : option jsstring :=
  match list_find (fun kv => kv.1 = k) table with
  | Some (_, (_, v)) => Some (if truthy v then v else fallback)
  | None => if bool_decide (k ∈ objectPrototypeKeys) then None else Some fallback
  end.

(** Lines 46-54. *)
Definition faces : list (jsstring * jsstring) :=
  [ (js "happy", [55357; 56842]%N); (js "thinking", [55358; 56596]%N);
    (js "explaining", [55358; 56784]%N); (js "confused", [55357; 56853]%N);
    (js "neutral", [55357; 56842]%N); (js "friendly", [55357; 56836]%N);
    (js "encouraging", [55356; 57119]%N) ].

(** Lines 45-56. *)
Definition getFaceEmoji (emotion : jsstring) : option jsstring :=
  lookup_or faces emotion [55357; 56842]%N.

(** Lines 62-70. *)
Definition colors : list (jsstring * jsstring) :=
  [ (js "happy", js "#4ade80"); (js "thinking", js "#facc15");
    (js "explaining", js "#60a5fa"); (js "confused", js "#fb923c");
    (js "neutral", js "#a78bfa"); (js "friendly", js "#22d3ee");
    (js "encouraging", js "#f472b6") ].

(** Lines 61-72. *)
Definition getEmotionColor (emotion : jsstring) : option jsstring :=
  lookup_or colors emotion (js "#a78bfa").

Definition isHexDigit (c : N) : bool :=
  ((48 <=? c) && (c <=? 57) || (97 <=? c) && (c <=? 102))%N.

End Mascot.

(** [formatMessage] (part_001 lines 230-266, the same text in part_002).
    [markup] stands for the six regular-expression passes of lines
    233-249, which are not modelled; lines 251-265 follow. *)
Definition formatMessage (markup : jsstring -> jsstring) (text : jsstring) : jsstring :=
  let formatted := markup text in
  let formatted := replaceRuns isLineFeed 2 (js "</p><p>") [] formatted in
  let formatted := replaceEach isLineFeed (js "<br/>") formatted in
  let formatted :=
    if negb (startsWith formatted (js "<"))
    then js "<p>" ++ formatted ++ js "</p>"
    else formatted in
  removeAll (js "<p></p>") 0 formatted.

(** The effect of [Mascot] (Mascot.jsx lines 14-32), run when
    [isSpeaking] or [currentMessage] changes: the text it hands to
    [speakText], if any.  [currentMessage] is [undefined] while the list
    of messages is empty.  The mouth animation is not modelled. *)
Definition spokenText (isSpeaking : bool) (currentMessage : option App.Message)
  : option jsstring :=
  match currentMessage with
  | Some m =>
      if isSpeaking && bool_decide (App.msgRole m = js "assistant")
      then Some (App.msgText m)
      else None
  | None => None
  end.

(** [App] renders the mascot with its speaking flag and
    [messages[messages.length - 1]] (part_000 lines 83-88). *)
Definition mascotSpeaks (s : App.State) : option jsstring :=
  spokenText (App.isSpeaking s) (last (App.messages s)).

(* ===================================================================== *)
(** * Properties *)
(* ===================================================================== *)

(** ** Rationals and truncation *)

Lemma Qltb_lt (x y : Q) : Qltb x y = true <-> (x < y)%Q.
Proof.
  unfold Qltb. rewrite Bool.negb_true_iff, <- Bool.not_true_iff_false, Qle_bool_iff.
  split; [apply Qnot_le_lt | apply Qlt_not_le].
Qed.

Lemma Qltb_ge (x y : Q) : Qltb x y = false <-> (y <= x)%Q.
Proof.
  unfold Qltb. rewrite Bool.negb_false_iff. apply Qle_bool_iff.
Qed.

Lemma ToInt16_in_range (q : Q) :
  - 2 ^ 15 <= truncate q < 2 ^ 15 -> ToInt16 (Finite q) = truncate q.
Proof.
  intros H. unfold ToInt16. cbv zeta.
  destruct (Z.leb_spec (2 ^ 15) (truncate q mod 2 ^ 16)) as [Hm | Hm].
  - destruct (Z.neg_nonneg_cases (truncate q)) as [Hn | Hn].
    + rewrite <- (Z.mod_add _ 1) in Hm |- * by lia.
      rewrite Z.mod_small in Hm |- * by lia. lia.
    + rewrite Z.mod_small in Hm by lia. lia.
  - destruct (Z.neg_nonneg_cases (truncate q)) as [Hn | Hn].
    + rewrite <- (Z.mod_add _ 1) in Hm by lia.
      rewrite Z.mod_small in Hm by lia. lia.
    + apply Z.mod_small. lia.
Qed.

Lemma truncate_Qeq (x y : Q) : (x == y)%Q -> truncate x = truncate y.
Proof.
  unfold Qeq, truncate. intros H.
  rewrite <- (Z.quot_mul_cancel_r (Qnum x) _ (Z.pos (Qden y))) by discriminate.
  rewrite H, (Z.mul_comm (Z.pos (Qden x))).
  apply Z.quot_mul_cancel_r; discriminate.
Qed.

Lemma quot_rem_cases (n d : Z) :
  0 < d ->
  exists r, n = d * (n ÷ d) + r /\
    (n < 0 /\ n ÷ d <= 0 /\ - d < r <= 0 \/ 0 <= n /\ 0 <= n ÷ d /\ 0 <= r < d).
Proof.
  intros Hd. exists (Z.rem n d). split; [apply Z.quot_rem'|].
  pose proof (Z.quot_rem' n d) as Hqr.
  destruct (Z.neg_nonneg_cases n) as [Hn | Hn].
  - left. pose proof (Z.rem_bound_pos_neg n d Hd (Z.lt_le_incl _ _ Hn)).
    repeat split; try lia. nia.
  - right. pose proof (Z.rem_bound_pos_pos n d Hd Hn).
    repeat split; try lia. nia.
Qed.

(** Truncation rounds toward zero: it never moves away from zero and it
    moves by less than one. *)
Lemma truncate_toward_zero (q : Q) :
  (Qabs (inject_Z (truncate q)) <= Qabs q)%Q /\
  (Qabs (q - inject_Z (truncate q)) < 1)%Q.
Proof.
  destruct q as [n d]. unfold truncate. cbn [Qnum Qden].
  destruct (quot_rem_cases n (Z.pos d)) as (r & Hqr & Hc); [reflexivity|].
  generalize dependent (n ÷ Z.pos d). intros t Hqr Hc.
  split.
  - unfold Qabs, inject_Z, Qle. cbn [Qnum Qden]. nia.
  - unfold Qabs, Qminus, Qplus, Qopp, inject_Z, Qlt. cbn [Qnum Qden]. nia.
Qed.

(** ** The quantizer *)

Lemma Qltb_compare (x y : Q) :
  Qltb x y = match (x ?= y)%Q with Lt => true | _ => false end.
Proof.
  unfold Qltb, Qle_bool, Qcompare, Z.leb.
  rewrite (Z.compare_antisym (Qnum x * QDen y)).
  now destruct (Qnum x * QDen y ?= Qnum y * QDen x).
Qed.

(** Line 137: [Math.max(-1, Math.min(1, x))] is the clamp. *)
Lemma clamp_code (q : Q) :
  Math_max (Finite (-1)) (Math_min (Finite 1) (Finite q)) = Finite (clamp q).
Proof.
  unfold clamp, Qmax, Qmin, GenericMinMax.gmax, GenericMinMax.gmin.
  cbn [Math_min Number_ltb]. rewrite Qltb_compare, <- (Qcompare_antisym 1 q).
  destruct (1 ?= q)%Q; cbn [CompOpp Math_max Number_ltb];
    rewrite Qltb_compare; now destruct (-1 ?= _)%Q.
Qed.

Lemma clamp_range (s : Q) : (-1 <= clamp s <= 1)%Q.
Proof.
  unfold clamp. split.
  - apply Q.le_max_l.
  - apply Q.max_lub; [discriminate | apply Q.le_min_l].
Qed.

Lemma clamp_Qeq (s : Q) : (-1 <= s <= 1)%Q -> (clamp s == s)%Q.
Proof.
  intros [Hlo Hhi]. unfold clamp.
  rewrite (Q.min_r 1 s) by assumption. now apply Q.max_r.
Qed.

Lemma quantize_Qeq (x y : Q) : (x == y)%Q -> quantize x = quantize y.
Proof.
  intros H. unfold quantize.
  assert (Hlt : Qltb x 0 = Qltb y 0).
  { destruct (Qltb y 0) eqn:E.
    - apply Qltb_lt. rewrite H. now apply Qltb_lt.
    - apply Qltb_ge. rewrite H. now apply Qltb_ge. }
  rewrite Hlt. destruct (Qltb y 0); apply truncate_Qeq; now rewrite H.
Qed.

(** The quantized value of a clamped sample is a 16-bit signed integer. *)
Lemma quantize_range (c : Q) :
  (-1 <= c <= 1)%Q -> - 2 ^ 15 <= quantize c < 2 ^ 15.
Proof.
  destruct c as [n d]. unfold Qle, quantize, truncate. cbn [Qnum Qden Qmult].
  intros [Hlo Hhi]. rewrite Pos.mul_1_r.
  destruct (Qltb (n # d) 0) eqn:E.
  - apply Qltb_lt in E. unfold Qlt in E. cbn [Qnum Qden] in E.
    destruct (quot_rem_cases (n * 32768) (Z.pos d)) as (r & Hqr & Hc); [reflexivity|].
    generalize dependent ((n * 32768) ÷ Z.pos d). intros t Hqr Hc. nia.
  - apply Qltb_ge in E. unfold Qle in E. cbn [Qnum Qden] in E.
    destruct (quot_rem_cases (n * 32767) (Z.pos d)) as (r & Hqr & Hc); [reflexivity|].
    generalize dependent ((n * 32767) ÷ Z.pos d). intros t Hqr Hc. nia.
Qed.

(** Lines 137-138 followed by the store into the [Int16Array]: clamp,
    scale, round toward zero; the 16-bit conversion never wraps. *)
Lemma storeSample_Finite (q : Q) :
  ToInt16 (scaleSample (Finite q)) = quantize (clamp q).
Proof.
  unfold scaleSample. rewrite clamp_code. cbn [Number_ltb].
  pose proof (quantize_range (clamp q) (clamp_range q)) as Hr.
  unfold quantize in *.
  destruct (Qltb (clamp q) 0); cbn [Number_mul]; now apply ToInt16_in_range.
Qed.

(** ** The conversion loop fills the array element by element *)

Lemma fill_loop_prefix {A B : Type} (g : B -> A) (d : B) (z : A) (l : list B) (k : nat) :
  (k <= length l)%nat ->
  foldl (fun acc i => <[i := g (default d (l !! i))]> acc)
        (replicate (length l) z) (seq 0 k)
  = (g <$> take k l) ++ replicate (length l - k) z.
Proof.
  induction k as [|k IH]; intros Hk.
  - cbn. now rewrite Nat.sub_0_r.
  - rewrite seq_S, foldl_app, IH by lia. cbn [foldl Nat.add].
    destruct (lookup_lt_is_Some_2 l k) as [x Hx]; [lia|].
    rewrite Hx, (take_S_r _ _ _ Hx), fmap_app. cbn [default fmap list_fmap].
    rewrite insert_app_r_alt by (rewrite length_fmap, length_take; lia).
    rewrite length_fmap, length_take, Nat.min_l, Nat.sub_diag by lia.
    replace (length l - k)%nat with (S (length l - S k)) by lia.
    cbn. now rewrite <- app_assoc.
Qed.

Lemma convertSamples_map (channelData : list Number) :
  convertSamples channelData = (fun x => ToInt16 (scaleSample x)) <$> channelData.
Proof.
  unfold convertSamples, Int16Array_set, Int16Array_new, Float32Array_get.
  rewrite (fill_loop_prefix (fun x => ToInt16 (scaleSample x)) NaN 0 channelData
             (length channelData)) by lia.
  now rewrite firstn_all, Nat.sub_diag, app_nil_r.
Qed.

Lemma convertSamples_length (channelData : list Number) :
  length (convertSamples channelData) = length channelData.
Proof. rewrite convertSamples_map. apply length_fmap. Qed.

(** ** DataView writes *)

Lemma setBytes_length (view : list byte) (o : nat) (bs view' : list byte) :
  setBytes view o bs = Some view' -> length view' = length view.
Proof.
  unfold setBytes. case_decide; [|discriminate]. intros [= <-].
  rewrite !length_app, length_take, length_drop. lia.
Qed.

(** A write replaces exactly the run it covers. *)
Lemma setBytes_mid (a old b bs : list byte) (o : nat) :
  length a = o -> length old = length bs ->
  setBytes (a ++ old ++ b) o bs = Some (a ++ bs ++ b).
Proof.
  intros <- Hlen. unfold setBytes.
  rewrite decide_True by (rewrite !length_app; lia).
  rewrite take_app_length, <- Hlen.
  rewrite drop_app_add', drop_app_length; done.
Qed.

Lemma drop_split {A : Type} (l : list A) (i n : nat) :
  (i + n <= length l)%nat ->
  exists old, length old = n /\ drop i l = old ++ drop (i + n) l.
Proof.
  intros H. exists (take n (drop i l)). split.
  - rewrite length_take, length_drop. lia.
  - now rewrite <- drop_drop, take_drop.
Qed.

Lemma writeString_prefix (view : list byte) (o : nat) (s : jsstring) (k : nat) :
  (k <= length s)%nat -> (o + length s <= length view)%nat ->
  foldl (fun acc i => view' ← acc; setUint8 view' (o + i) (charCodeAt s i))
        (Some view) (seq 0 k)
  = Some (take o view ++ asciiBytes (take k s) ++ drop (o + k) view).
Proof.
  intros Hk Hv. induction k as [|k IH].
  - cbn [seq foldl]. rewrite take_0, Nat.add_0_r. cbn. now rewrite take_drop.
  - rewrite seq_S, foldl_app, IH by lia. cbn [foldl Nat.add mbind option_bind].
    destruct (lookup_lt_is_Some_2 s k) as [c Hc]; [lia|].
    unfold charCodeAt, asciiBytes. rewrite Hc, (take_S_r _ _ _ Hc), fmap_app.
    cbn [default fmap list_fmap].
    destruct (drop_split view (o + k) 1) as (old & Hold & ->); [lia|].
    unfold setUint8. rewrite app_assoc, setBytes_mid.
    + rewrite <- !app_assoc. now replace (o + k + 1)%nat with (o + S k)%nat by lia.
    + rewrite length_app, length_take, length_fmap, length_take. lia.
    + now rewrite Hold.
Qed.

Lemma writeString_spec (view : list byte) (o : nat) (s : jsstring) :
  (o + length s <= length view)%nat ->
  writeString view o s
  = Some (take o view ++ asciiBytes s ++ drop (o + length s) view).
Proof.
  intros H. unfold writeString.
  rewrite writeString_prefix by lia. now rewrite firstn_all.
Qed.

Lemma length_payload (samples : list Z) :
  length (concat (le_split 2 <$> samples)) = (2 * length samples)%nat.
Proof.
  induction samples as [|v l IH]; [reflexivity|].
  rewrite fmap_cons, concat_cons, length_app, IH, length_le_split.
  cbn [length]. lia.
Qed.

Lemma writeSamples_prefix (view : list byte) (samples : list Z) (o k : nat) :
  (k <= length samples)%nat -> (o + 2 * length samples <= length view)%nat ->
  foldl (fun acc i =>
           '(view', offset') ← acc;
           view'' ← setInt16 view' offset' (default 0 (samples !! i));
           Some (view'', (offset' + 2)%nat))
        (Some (view, o)) (seq 0 k)
  = Some (take o view ++ concat (le_split 2 <$> take k samples)
            ++ drop (o + 2 * k) view, (o + 2 * k)%nat).
Proof.
  intros Hk Hv. induction k as [|k IH].
  - cbn [seq foldl]. rewrite take_0, Nat.mul_0_r, Nat.add_0_r. cbn. now rewrite take_drop.
  - rewrite seq_S, foldl_app, IH by lia. cbn [foldl Nat.add mbind option_bind].
    destruct (lookup_lt_is_Some_2 samples k) as [v Hx]; [lia|].
    rewrite Hx, (take_S_r _ _ _ Hx), fmap_app, concat_app.
    cbn [default fmap list_fmap concat].
    destruct (drop_split view (o + 2 * k) 2) as (old & Hold & ->); [lia|].
    unfold setInt16. rewrite app_assoc, setBytes_mid.
    + cbn [mbind option_bind]. f_equal. f_equal; [|lia].
      rewrite <- !app_assoc.
      now replace (o + 2 * k + 2)%nat with (o + 2 * S k)%nat by lia.
    + rewrite length_app, length_take.
      rewrite length_payload, length_take. lia.
    + now rewrite Hold.
Qed.

Lemma writeSamples_spec (view : list byte) (samples : list Z) (o : nat) :
  (o + 2 * length samples <= length view)%nat ->
  writeSamples view samples o
  = Some (take o view ++ concat (le_split 2 <$> samples)
            ++ drop (o + 2 * length samples) view,
          (o + 2 * length samples)%nat).
Proof.
  intros H. unfold writeSamples.
  rewrite writeSamples_prefix by lia. now rewrite firstn_all.
Qed.

(** The header fields are written front to back, each right after the
    bytes already written. *)
Lemma setBytes_next (done rest bs : list byte) (o : nat) :
  length done = o -> (length bs <= length rest)%nat ->
  setBytes (done ++ rest) o bs = Some ((done ++ bs) ++ drop (length bs) rest).
Proof.
  intros Ho Hlen.
  rewrite <- (take_drop (length bs) rest) at 1.
  rewrite setBytes_mid; [now rewrite app_assoc | assumption |].
  rewrite length_take. lia.
Qed.

Lemma writeString_next (done rest : list byte) (s : jsstring) (o : nat) :
  length done = o -> (length s <= length rest)%nat ->
  writeString (done ++ rest) o s
  = Some ((done ++ asciiBytes s) ++ drop (length s) rest).
Proof.
  intros <- Hlen. rewrite writeString_spec by (rewrite length_app; lia).
  now rewrite take_app_length, drop_app_add', app_assoc.
Qed.

Lemma writeSamples_next (done rest : list byte) (samples : list Z) (o : nat) :
  length done = o -> length rest = (2 * length samples)%nat ->
  writeSamples (done ++ rest) samples o
  = Some (done ++ concat (le_split 2 <$> samples), (o + 2 * length samples)%nat).
Proof.
  intros <- Hlen. rewrite writeSamples_spec by (rewrite length_app; lia).
  rewrite take_app_length, drop_app_add' by reflexivity.
  now rewrite <- Hlen, drop_all, app_nil_r.
Qed.

Ltac literal_lengths :=
  repeat match goal with
         | |- context [length (js ?s)] =>
             let n := eval vm_compute in (length (js s)) in
             change (length (js s)) with n
         end.

Ltac header_field :=
  first [ rewrite writeString_next | rewrite setBytes_next ];
  [ cbn [mbind option_bind]
  | reflexivity
  | literal_lengths;
    rewrite ?length_drop, ?length_replicate, ?length_le_split; lia ].

(** ** The bytes of the file: header, then payload *)

Lemma wavBytes_spec (rate : Z) (samples : list Z) :
  wavBytes rate samples
  = Some (wavHeader rate (length samples) ++ concat (le_split 2 <$> samples)).
Proof.
  unfold wavBytes, ArrayBuffer_new, setUint32, setUint16.
  change (replicate (44 + length samples * 2) (byte.of_Z 0))
    with ([] ++ replicate (44 + length samples * 2) (byte.of_Z 0)).
  do 13 header_field.
  rewrite writeSamples_next.
  - cbn [fmap option_fmap option_map fst]. unfold wavHeader.
    rewrite <- !app_assoc. cbn [app].
    change (numChannels * bitDepth / 8) with 2.
    replace (rate * numChannels * bitDepth / 8) with (rate * 2); [reflexivity|].
    unfold numChannels, bitDepth.
    replace (rate * 1 * 16) with (rate * 2 * 8) by lia.
    now rewrite Z.div_mul.
  - reflexivity.
  - literal_lengths.
    rewrite ?length_drop, ?length_replicate, ?length_le_split. lia.
Qed.

Lemma length_wavHeader (rate : Z) (n : nat) : length (wavHeader rate n) = 44%nat.
Proof. reflexivity. Qed.

Lemma audioBufferToWav_spec (audioBuffer : AudioBuffer) :
  audioBufferToWav audioBuffer
  = Some (mkBlob
            (wavHeader (sampleRate audioBuffer) (length (channel0 audioBuffer))
             ++ concat (le_split 2 <$> convertSamples (channel0 audioBuffer)))
            (js "audio/wav")).
Proof.
  unfold audioBufferToWav, getChannelData0, Blob_of_buffer.
  now rewrite wavBytes_spec, convertSamples_length.
Qed.

(** ** Reading the payload back *)

Lemma signed16_le16 (v : Z) :
  - 2 ^ 15 <= v < 2 ^ 15 -> signed16 (le_combine (le_split 2 v)) = v.
Proof.
  intros H. rewrite le_combine_split. unfold signed16.
  change (2 ^ (Z.of_nat 2 * 8)) with (2 ^ 16).
  destruct (Z.neg_nonneg_cases v) as [Hn | Hn].
  - rewrite <- (Z.mod_add _ 1) by lia. rewrite Z.mod_small by lia.
    destruct (Z.leb_spec (2 ^ 15) (v + 1 * 2 ^ 16)); lia.
  - rewrite Z.mod_small by lia. destruct (Z.leb_spec (2 ^ 15) v); lia.
Qed.

Lemma parseSamples_payload (samples : list Z) :
  Forall (fun v => - 2 ^ 15 <= v < 2 ^ 15) samples ->
  parseSamples (concat (le_split 2 <$> samples)) = samples.
Proof.
  induction 1 as [|v l Hv _ IH]; [reflexivity|].
  rewrite fmap_cons, concat_cons.
  change (le_split 2 v) with ([byte.of_Z v; byte.of_Z (Z.shiftr v 8)]) at 1.
  cbn [app parseSamples]. rewrite IH. f_equal.
  now apply (signed16_le16 v).
Qed.

(** Scaling back a quantized sample lands within one step of it. *)
Lemma dequantize_quantize (s : Q) :
  (Qabs (dequantize (quantize s) - s) < quantizationStep s)%Q.
Proof.
  destruct s as [n d]. unfold quantize, quantizationStep, truncate.
  cbn [Qnum Qden Qmult]. rewrite Pos.mul_1_r.
  destruct (Qltb (n # d) 0) eqn:E.
  - apply Qltb_lt in E. unfold Qlt in E. cbn [Qnum Qden] in E.
    destruct (quot_rem_cases (n * 32768) (Z.pos d)) as (r & Hqr & Hc); [reflexivity|].
    generalize dependent ((n * 32768) ÷ Z.pos d). intros t Hqr Hc.
    unfold dequantize. destruct (Z.ltb_spec t 0);
      unfold Qabs, Qminus, Qplus, Qopp, Qlt; cbn [Qnum Qden];
      rewrite Pos2Z.inj_mul; nia.
  - apply Qltb_ge in E. unfold Qle in E. cbn [Qnum Qden] in E.
    destruct (quot_rem_cases (n * 32767) (Z.pos d)) as (r & Hqr & Hc); [reflexivity|].
    generalize dependent ((n * 32767) ÷ Z.pos d). intros t Hqr Hc.
    unfold dequantize. destruct (Z.ltb_spec t 0);
      unfold Qabs, Qminus, Qplus, Qopp, Qlt; cbn [Qnum Qden];
      rewrite Pos2Z.inj_mul; nia.
Qed.

(** ** Reading the header back *)

Lemma wavHeader_fields (rate : Z) (n : nat) :
  wavHeader rate n = concat (headerFields rate n).
Proof. reflexivity. Qed.

Lemma readBytes_field (fields : list (list byte)) (post : list byte)
    (k o n : nat) (f : list byte) :
  fields !! k = Some f -> length (concat (take k fields)) = o -> length f = n ->
  readBytes (concat fields ++ post) o n = f.
Proof.
  intros Hk <- <-. unfold readBytes.
  rewrite <- (take_drop_middle _ _ _ Hk), concat_app, concat_cons, <- !app_assoc.
  rewrite take_app_length' by (now rewrite length_take_le by (apply lookup_lt_Some in Hk; lia)).
  now rewrite drop_app_length, take_app_length.
Qed.

Lemma parseHeader_wav (rate : Z) (n : nat) (payload : list byte) :
  parseHeader (wavHeader rate n ++ payload)
  = Some (mkWavHeader (js "RIFF") ((36 + Z.of_nat n * 2) mod 2 ^ 32)
            (js "WAVE") (js "fmt ") 16 1 1
            (rate mod 2 ^ 32) ((rate * 2) mod 2 ^ 32) 2 16
            (js "data") ((Z.of_nat n * 2) mod 2 ^ 32)).
Proof.
  unfold parseHeader.
  rewrite decide_True by (rewrite length_app, length_wavHeader; lia).
  unfold readTag, readUint32, readUint16. rewrite wavHeader_fields.
  erewrite (readBytes_field _ _ 0), (readBytes_field _ _ 1),
    (readBytes_field _ _ 2), (readBytes_field _ _ 3), (readBytes_field _ _ 4),
    (readBytes_field _ _ 5), (readBytes_field _ _ 6), (readBytes_field _ _ 7),
    (readBytes_field _ _ 8), (readBytes_field _ _ 9), (readBytes_field _ _ 10),
    (readBytes_field _ _ 11), (readBytes_field _ _ 12) by reflexivity.
  rewrite !le_combine_split. reflexivity.
Qed.

(* ===================================================================== *)
(** * The encoder: quantization, sizes, header, round trip *)
(* ===================================================================== *)

(** An infinite sample is clamped like any other; NaN is stored as 0. *)
Lemma storeSample_special :
  ToInt16 (scaleSample PosInfinity) = 32767
  /\ ToInt16 (scaleSample NegInfinity) = -32768
  /\ ToInt16 (scaleSample NaN) = 0.
Proof. repeat split; vm_compute; reflexivity. Qed.

(** C1.  Every finite sample [s] of the decoded channel is clamped to
    [[-1, 1]] and then quantized to a 16-bit signed integer: a negative
    clamped value is scaled by 32768, a non-negative one by 32767, and the
    product is rounded toward zero.  A sample equal to 1 is stored as
    32767 and a sample equal to -1 as -32768. *)
Theorem quantization_clamp_scale_truncate
    (audioBuffer : AudioBuffer) (i : nat) (s : Q) :
  getChannelData0 audioBuffer !! i = Some (Finite s) ->
  let c := clamp s in
  let v := if Qltb c 0 then truncate (c * 32768) else truncate (c * 32767) in
  convertSamples (getChannelData0 audioBuffer) !! i = Some v
  /\ (-1 <= c <= 1)%Q
  /\ ((-1 <= s <= 1)%Q -> (c == s)%Q)
  /\ ((1 <= s)%Q -> (c == 1)%Q)
  /\ ((s <= -1)%Q -> (c == -1)%Q)
  /\ - 32768 <= v <= 32767
  /\ ((s == 1)%Q -> v = 32767)
  /\ ((s == -1)%Q -> v = -32768).
Proof.
  intros Hi c v.
  assert (Hv : v = quantize c) by reflexivity.
  assert (Hc : (-1 <= c <= 1)%Q) by apply clamp_range.
  split; [|split; [|split; [|split; [|split; [|split; [|split]]]]]].
  - rewrite convertSamples_map, list_lookup_fmap, Hi. cbn [fmap option_fmap option_map].
    now rewrite storeSample_Finite.
  - exact Hc.
  - apply clamp_Qeq.
  - intros H. unfold c, clamp. rewrite (Q.min_l 1 s) by assumption.
    now apply Q.max_r.
  - intros H. unfold c, clamp. rewrite (Q.min_r 1 s).
    + apply Q.max_l; assumption.
    + apply Qle_trans with (-1)%Q; [assumption | discriminate].
  - rewrite Hv. pose proof (quantize_range c Hc). lia.
  - intros H. rewrite Hv. rewrite (quantize_Qeq c 1); [reflexivity|].
    unfold c. rewrite clamp_Qeq; [assumption|]. rewrite H. split; discriminate.
  - intros H. rewrite Hv. rewrite (quantize_Qeq c (-1)); [reflexivity|].
    unfold c. rewrite clamp_Qeq; [assumption|]. rewrite H. split; discriminate.
Qed.

Lemma quantization_clamp_scale_truncate_witness :
  getChannelData0 (mkAudioBuffer 16000 [Finite 1; Finite (-1); Finite (1 # 3)] [])
    !! 2%nat = Some (Finite (1 # 3))
  /\ convertSamples [Finite 1; Finite (-1); Finite (1 # 3)] !! 2%nat = Some 10922.
Proof.
  split; [reflexivity|].
  exact (proj1 (quantization_clamp_scale_truncate
                  (mkAudioBuffer 16000 [Finite 1; Finite (-1); Finite (1 # 3)] [])
                  2 (1 # 3) eq_refl)).
Defined.

(** The header of every encoded buffer, field by field; the 32-bit
    fields hold their values modulo [2^32]. *)
Lemma audioBufferToWav_header (audioBuffer : AudioBuffer) :
  exists wav,
    audioBufferToWav audioBuffer = Some wav
    /\ blobType wav = js "audio/wav"
    /\ length (blobData wav) = (44 + 2 * length (getChannelData0 audioBuffer))%nat
    /\ take 44 (blobData wav)
       = wavHeader (sampleRate audioBuffer) (length (getChannelData0 audioBuffer))
    /\ parseHeader (blobData wav)
       = Some (mkWavHeader (js "RIFF")
                 ((36 + Z.of_nat (length (getChannelData0 audioBuffer)) * 2) mod 2 ^ 32)
                 (js "WAVE") (js "fmt ") 16 1 1
                 (sampleRate audioBuffer mod 2 ^ 32)
                 ((sampleRate audioBuffer * 2) mod 2 ^ 32) 2 16
                 (js "data")
                 ((Z.of_nat (length (getChannelData0 audioBuffer)) * 2) mod 2 ^ 32)).
Proof.
  eexists. split; [apply audioBufferToWav_spec|]. cbn [blobData blobType].
  unfold getChannelData0.
  split; [reflexivity|]. split; [|split].
  - rewrite length_app, length_wavHeader, length_payload, convertSamples_length. lia.
  - now rewrite take_app_length' by reflexivity.
  - apply parseHeader_wav.
Qed.

(** C2.  For a channel of [n] samples whose RIFF chunk size [36 + 2n]
    fits its 32-bit field, the encoder returns a buffer of [44 + 2n]
    bytes whose [data] subchunk size field is [2n] and whose RIFF chunk
    size field is [36 + 2n]; with no samples the buffer is the 44-byte
    header alone and its [data] subchunk size is 0. *)
Theorem wav_sizes_consistent (audioBuffer : AudioBuffer) :
  let n := length (getChannelData0 audioBuffer) in
  36 + 2 * Z.of_nat n < 2 ^ 32 ->
  exists wav h,
    audioBufferToWav audioBuffer = Some wav
    /\ parseHeader (blobData wav) = Some h
    /\ length (blobData wav) = (44 + 2 * n)%nat
    /\ subchunk2Size h = 2 * Z.of_nat n
    /\ chunkSize h = 36 + 2 * Z.of_nat n
    /\ chunkSize h = 36 + subchunk2Size h
    /\ (n = 0%nat ->
        blobData wav = wavHeader (sampleRate audioBuffer) 0
        /\ length (blobData wav) = 44%nat /\ subchunk2Size h = 0).
Proof.
  intros n Hn.
  destruct (audioBufferToWav_header audioBuffer) as (wav & Hwav & _ & Hlen & Htake & Hh).
  fold n in Hlen, Htake, Hh.
  eexists wav, _. split; [exact Hwav|]. split; [exact Hh|].
  cbn [subchunk2Size chunkSize].
  rewrite !Z.mod_small by lia.
  repeat (split; [lia|]).
  intros H0. repeat split; try lia.
  rewrite <- H0, <- Htake. symmetry. apply take_ge. lia.
Qed.

Lemma wav_sizes_consistent_witness :
  36 + 2 * Z.of_nat (length (getChannelData0
                               (mkAudioBuffer 16000 [Finite (1 # 2); Finite (-1)] [])))
    < 2 ^ 32
  /\ exists wav h,
       audioBufferToWav (mkAudioBuffer 16000 [Finite (1 # 2); Finite (-1)] []) = Some wav
       /\ parseHeader (blobData wav) = Some h
       /\ length (blobData wav) = 48%nat
       /\ subchunk2Size h = 4
       /\ chunkSize h = 40.
Proof.
  split; [reflexivity|].
  destruct (wav_sizes_consistent
              (mkAudioBuffer 16000 [Finite (1 # 2); Finite (-1)] []) eq_refl)
    as (wav & h & H1 & H2 & H3 & H4 & H5 & _).
  exists wav, h. repeat split; assumption.
Defined.

(** C3.  For every buffer whose sample rate fits 31 bits
    the encoder returns a WAV file whose 44-byte header reads back as:
    tags "RIFF", "WAVE", "fmt " and "data", format tag 1 (linear PCM),
    one channel, the sample rate of the buffer it was given, byte rate =
    sample rate x channels x bit depth / 8, block align = channels x bit
    depth / 8, and 16 bits per sample.  The rate is 16000 for a buffer at
    16 kHz; it is copied from the buffer, not fixed by the encoder. *)
Theorem wav_header_configuration (audioBuffer : AudioBuffer) :
  0 <= sampleRate audioBuffer < 2 ^ 31 ->
  exists wav h,
    audioBufferToWav audioBuffer = Some wav
    /\ (44 <= length (blobData wav))%nat
    /\ parseHeader (blobData wav) = Some h
    /\ chunkId h = js "RIFF" /\ waveId h = js "WAVE"
    /\ subchunk1Id h = js "fmt " /\ subchunk2Id h = js "data"
    /\ subchunk1Size h = 16
    /\ audioFormat h = 1
    /\ channelCount h = 1
    /\ samplesPerSec h = sampleRate audioBuffer
    /\ byteRate h = samplesPerSec h * channelCount h * bitsPerSample h / 8
    /\ blockAlign h = channelCount h * bitsPerSample h / 8
    /\ bitsPerSample h = 16
    /\ (sampleRate audioBuffer = 16000 ->
        samplesPerSec h = 16000 /\ byteRate h = 32000).
Proof.
  intros Hr.
  destruct (audioBufferToWav_header audioBuffer) as (wav & Hwav & _ & Hlen & _ & Hh).
  eexists wav, _. split; [exact Hwav|]. split; [lia|]. split; [exact Hh|].
  cbn [chunkId waveId subchunk1Id subchunk2Id subchunk1Size audioFormat channelCount
       samplesPerSec byteRate blockAlign bitsPerSample].
  rewrite !Z.mod_small by lia.
  do 8 (split; [reflexivity|]).
  split.
  { apply Z.div_unique_exact; lia. }
  split; [reflexivity|]. split; [reflexivity|].
  intros ->. split; reflexivity.
Qed.

(** C3, counterexample.  The sample rate of the header is not always
    16000: the header of a 48 kHz buffer reads back as 48000 samples per
    second, and this is the file the component uploads in a browser
    whose audio context runs at 48 kHz. *)
Lemma wav_header_rate_counterexample :
  (exists wav h,
     audioBufferToWav (mkAudioBuffer 48000 [Finite (1 # 2); Finite (-1)] []) = Some wav
     /\ parseHeader (blobData wav) = Some h
     /\ samplesPerSec h = 48000
     /\ byteRate h = 96000
     /\ samplesPerSec h <> 16000)
  /\ (exists wav h,
        uploads (calls (snd (convertToWavAndTranscribe prefixedContextPlatform
                               sampleChunk 0 initialWorld))) = [wav]
        /\ parseHeader (blobData wav) = Some h
        /\ samplesPerSec h = 48000
        /\ samplesPerSec h <> 16000).
Proof.
  split.
  - eexists _, _. split; [vm_compute; reflexivity|].
    split; [vm_compute; reflexivity|].
    cbn [samplesPerSec byteRate]. repeat split; discriminate.
  - eexists _, _. split; [vm_compute; reflexivity|].
    split; [vm_compute; reflexivity|].
    cbn [samplesPerSec]. split; [reflexivity | discriminate].
Qed.

(** Each sample of a channel within [[-1, 1]] is read back within one
    quantization step. *)
Lemma decode_payload (samples : list Q) :
  Forall (fun s => (-1 <= s <= 1)%Q) samples ->
  Forall (fun v => - 2 ^ 15 <= v < 2 ^ 15)
    ((fun x => ToInt16 (scaleSample x)) <$> (Finite <$> samples))
  /\ Forall2 (fun s s' => (Qabs (s' - s) < quantizationStep s)%Q) samples
       (dequantize <$> ((fun x => ToInt16 (scaleSample x)) <$> (Finite <$> samples))).
Proof.
  induction 1 as [|s l Hs _ [IH1 IH2]]; [split; constructor|].
  rewrite !fmap_cons, storeSample_Finite.
  split; constructor; try assumption.
  - apply quantize_range, clamp_range.
  - rewrite (quantize_Qeq (clamp s) s) by now apply clamp_Qeq.
    apply dequantize_quantize.
Qed.

(** C4.  For a channel whose samples all lie in [[-1, 1]], reading the
    encoded buffer back (16-bit little-endian words after the 44-byte
    header, scaled back by 32768 or 32767) yields as many samples, each
    within one quantization step of the sample it came from. *)
Theorem wav_round_trip (audioBuffer : AudioBuffer) (samples : list Q) :
  getChannelData0 audioBuffer = Finite <$> samples ->
  Forall (fun s => (-1 <= s <= 1)%Q) samples ->
  exists wav,
    audioBufferToWav audioBuffer = Some wav
    /\ length (decodeWav (blobData wav)) = length samples
    /\ Forall2 (fun s s' => (Qabs (s' - s) < quantizationStep s)%Q)
         samples (decodeWav (blobData wav)).
Proof.
  intros Hch Hrange. eexists. split; [apply audioBufferToWav_spec|].
  unfold getChannelData0 in Hch. cbn [blobData]. unfold decodeWav.
  rewrite drop_app_length' by reflexivity.
  rewrite Hch, convertSamples_map.
  destruct (decode_payload samples Hrange) as [Hr H2].
  rewrite parseSamples_payload by exact Hr.
  split; [|exact H2].
  now rewrite !length_fmap.
Qed.

(* ===================================================================== *)
(** * The format negotiator *)
(* ===================================================================== *)

(** C7.  The recording type is a function of the set of supported types
    alone: WAV when it is supported, else Opus in WebM when that is
    supported, else plain WebM; two platforms that agree on the support
    of those two types get the same answer. *)
Theorem recorderOptions_preference (supported : gset jsstring) :
  (js "audio/wav" ∈ supported -> recorderOptions supported = js "audio/wav")
  /\ (js "audio/wav" ∉ supported -> js "audio/webm;codecs=opus" ∈ supported ->
      recorderOptions supported = js "audio/webm;codecs=opus")
  /\ (js "audio/wav" ∉ supported -> js "audio/webm;codecs=opus" ∉ supported ->
      recorderOptions supported = js "audio/webm")
  /\ (forall supported' : gset jsstring,
        (js "audio/wav" ∈ supported <-> js "audio/wav" ∈ supported') ->
        (js "audio/webm;codecs=opus" ∈ supported
         <-> js "audio/webm;codecs=opus" ∈ supported') ->
        recorderOptions supported = recorderOptions supported').
Proof.
  unfold recorderOptions. repeat split.
  - intros H. now rewrite bool_decide_eq_true_2.
  - intros H1 H2. now rewrite bool_decide_eq_false_2, bool_decide_eq_true_2.
  - intros H1 H2. now rewrite !bool_decide_eq_false_2.
  - intros supported' Hw Ho.
    rewrite (bool_decide_ext _ _ Hw), (bool_decide_ext _ _ Ho). reflexivity.
Qed.

(* ===================================================================== *)
(** * Stopping and sending *)
(* ===================================================================== *)

(** C9.  Without a recorder handle, or with the recording flag down,
    [stopRecording] returns at once: no field of the state changes and no
    call is made, so no recorder is stopped and no stop event (hence no
    blob) follows. *)
Theorem stopRecording_noop (w : World) :
  mediaRecorderRef w = None \/ isRecording w = false ->
  stopRecording w = (Normal tt, w).
Proof.
  unfold stopRecording, get, mbind, M_bind, mret, M_ret.
  intros [H | H]; rewrite H; [reflexivity|].
  now destruct (mediaRecorderRef w).
Qed.

Lemma stopRecording_noop_witness :
  (mediaRecorderRef (mkWorld (js "hello") false false None [] [] []) = None
   \/ isRecording (mkWorld (js "hello") false false None [] [] []) = false)
  /\ stopRecording (mkWorld (js "hello") false false None [] [] [])
     = (Normal tt, mkWorld (js "hello") false false None [] [] []).
Proof.
  split; [left; reflexivity|].
  apply (stopRecording_noop (mkWorld (js "hello") false false None [] [] [])).
  left; reflexivity.
Defined.

(** While recording, [stopRecording] stops the recorder of the ref once
    and lowers the flag. *)
Lemma stopRecording_active (w : World) (recorder : MediaRecorder) :
  mediaRecorderRef w = Some recorder -> isRecording w = true ->
  stopRecording w
  = (Normal tt,
     with_isRecording false (with_calls (calls w ++ [CallRecorderStop recorder]) w)).
Proof.
  unfold stopRecording, get, mbind, M_bind, mret, M_ret. now intros -> ->.
Qed.

(** ** Trimming *)

Lemma trimStart_split (s : jsstring) :
  exists l, s = l ++ trimStart s /\ Forall (fun c => isWhiteSpace c = true) l.
Proof.
  induction s as [|c s (l & Hs & Hl)]; [now exists []|].
  cbn [trimStart]. destruct (isWhiteSpace c) eqn:E.
  - exists (c :: l). split; [now rewrite Hs at 1 | now constructor].
  - now exists [].
Qed.

Lemma trimStart_head (s : jsstring) (c : N) :
  head (trimStart s) = Some c -> isWhiteSpace c = false.
Proof.
  induction s as [|c' s IH]; [discriminate|].
  cbn [trimStart]. destruct (isWhiteSpace c') eqn:E; [exact IH|].
  now intros [= <-].
Qed.

Lemma trimStart_suffix_last (s : jsstring) (c : N) :
  last (trimStart s) = Some c -> last s = Some c.
Proof.
  destruct (trimStart_split s) as (l & Hs & _). intros H.
  rewrite Hs, last_app, H. reflexivity.
Qed.

(** [trim] removes whitespace from both ends and nothing else; what is
    left neither starts nor ends with whitespace. *)
Lemma trim_spec (s : jsstring) :
  (exists l r, s = l ++ trim s ++ r
               /\ Forall (fun c => isWhiteSpace c = true) l
               /\ Forall (fun c => isWhiteSpace c = true) r)
  /\ (forall c, head (trim s) = Some c -> isWhiteSpace c = false)
  /\ (forall c, last (trim s) = Some c -> isWhiteSpace c = false).
Proof.
  unfold trim, trimEnd.
  destruct (trimStart_split s) as (l & Hs & Hl).
  destruct (trimStart_split (reverse (trimStart s))) as (r & Hr & Hrw).
  split; [|split].
  - exists l, (reverse r). split; [|split].
    + rewrite Hs at 1. f_equal.
      rewrite <- (reverse_involutive (trimStart s)), Hr at 1.
      now rewrite reverse_app.
    + exact Hl.
    + now apply Forall_reverse.
  - intros c Hc. apply (trimStart_head s).
    rewrite head_reverse in Hc.
    apply trimStart_suffix_last in Hc. now rewrite last_reverse in Hc.
  - intros c Hc. rewrite last_reverse in Hc. now apply trimStart_head in Hc.
Qed.

(** C10.  [handleSendText] dispatches exactly when the trimmed input is
    not empty and no request is in flight.  It then sends the trimmed
    text, which neither starts nor ends with whitespace and is not empty,
    and clears the input; otherwise it changes nothing. *)
Theorem handleSendText_dispatch (props : Props) (w : World) :
  let message := trim (inputText w) in
  (message <> [] /\ isLoading props = false ->
   handleSendText props w
   = (Normal tt,
      with_inputText [] (with_calls (calls w ++ [CallOnSendMessage message]) w)))
  /\ (message = [] \/ isLoading props = true ->
      handleSendText props w = (Normal tt, w))
  /\ (exists l r, inputText w = l ++ message ++ r
                  /\ Forall (fun c => isWhiteSpace c = true) l
                  /\ Forall (fun c => isWhiteSpace c = true) r)
  /\ (forall c, head message = Some c -> isWhiteSpace c = false)
  /\ (forall c, last message = Some c -> isWhiteSpace c = false)
  /\ (message <> [] -> ~ Forall (fun c => isWhiteSpace c = true) message).
Proof.
  intros message.
  destruct (trim_spec (inputText w)) as (Hsplit & Hhead & Hlast).
  fold message in Hsplit, Hhead, Hlast.
  unfold handleSendText, get, call, setInputText, modify, mbind, M_bind, mret, M_ret.
  fold message.
  split; [|split; [|split; [|split; [|split]]]]; try assumption.
  - intros [Hm Hl]. rewrite Hl. destruct message; [congruence | reflexivity].
  - intros [Hm | Hl].
    + now rewrite Hm.
    + rewrite Hl. now rewrite andb_false_r.
  - intros Hm Hall. destruct message as [|c m]; [congruence|].
    apply Forall_cons in Hall as [Hc _].
    rewrite (Hhead c eq_refl) in Hc. discriminate.
Qed.

(* ===================================================================== *)
(** * Transcription and the input field *)
(* ===================================================================== *)

Ltac run_M :=
  unfold api_transcribeAudio, alert, console_error, setInputText, setIsTranscribing,
    setIsRecording, stopTracks, call, modify, get, complete, raise_if, throw,
    try_catch, try_finally, mbind, M_bind, mret, M_ret.

(** What [handleAudioTranscription] leaves in the input field: the text
    of a successful result, and the former content otherwise. *)
Lemma handleAudioTranscription_inputText (P : Platform) (audioBlob : Blob) (w : World) :
  fst (handleAudioTranscription P audioBlob w) = Normal tt
  /\ inputText (snd (handleAudioTranscription P audioBlob w))
     = match transcribeAudio P audioBlob with
       | Normal result => if success result then text result else inputText w
       | Throw _ => inputText w
       end
  /\ streams (snd (handleAudioTranscription P audioBlob w)) = streams w
  /\ isTranscribing (snd (handleAudioTranscription P audioBlob w)) = false.
Proof.
  unfold handleAudioTranscription. run_M.
  destruct (transcribeAudio P audioBlob) as [result | e]; [|now cbn].
  now destruct (success result).
Qed.

(** Every run of [convertToWavAndTranscribe] ends normally with the
    tracks of its stream stopped, and it writes the input field only
    with the text of a successful transcription. *)
Lemma convertToWavAndTranscribe_outcome
    (P : Platform) (audioBlob : Blob) (stream : nat) (w : World) :
  fst (convertToWavAndTranscribe P audioBlob stream w) = Normal tt
  /\ streams (snd (convertToWavAndTranscribe P audioBlob stream w))
     = alter (fmap (fun _ => ended)) stream (streams w)
  /\ (inputText (snd (convertToWavAndTranscribe P audioBlob stream w)) = inputText w
      \/ exists wavBlob result,
           transcribeAudio P wavBlob = Normal result /\ success result = true
           /\ inputText (snd (convertToWavAndTranscribe P audioBlob stream w))
              = text result).
Proof.
  unfold convertToWavAndTranscribe, AudioContext_new, Blob_arrayBuffer, decodeAudioData.
  run_M.
  destruct (audioContextNew P 16000) as [audioContext|e0]; [|cbn; auto].
  destruct (arrayBufferError P audioBlob); [cbn; auto|].
  destruct (decoder P (blobData audioBlob)) as [[c0 cs]|e]; [|cbn; auto].
  rewrite audioBufferToWav_spec. cbn [from_option].
  match goal with
  | |- context [handleAudioTranscription P ?b ?w1] =>
      pose proof (handleAudioTranscription_inputText P b w1) as (Hc & Hi & Hs & _);
      destruct (handleAudioTranscription P b w1) as [c w2];
      destruct (transcribeAudio P b) as [result | e] eqn:Ht
  end; cbn [fst snd] in *; subst c; cbn [fst snd streams inputText with_streams with_calls] in *.
  - rewrite Hs. split; [reflexivity|]. split; [reflexivity|].
    destruct (success result) eqn:Hsucc; [right; eauto | left; exact Hi].
  - rewrite Hs. auto.
Qed.

(** C8.  When the transcription call throws or its result reports
    [success = false], [handleAudioTranscription] leaves the input field
    as it was; the field changes only to the text of a result that
    reports success.  The same holds of a whole voice-input attempt (the
    [onstop] handler of either revision), whatever else fails in it. *)
Theorem failed_transcription_keeps_input
    (P : Platform) (audioBlob : Blob) (w : World) :
  ((exists e, transcribeAudio P audioBlob = Throw e)
   \/ (exists result, transcribeAudio P audioBlob = Normal result
                      /\ success result = false) ->
   inputText (snd (handleAudioTranscription P audioBlob w)) = inputText w)
  /\ (inputText (snd (handleAudioTranscription P audioBlob w)) <> inputText w ->
      exists result, transcribeAudio P audioBlob = Normal result
                     /\ success result = true
                     /\ inputText (snd (handleAudioTranscription P audioBlob w))
                        = text result)
  /\ (forall (mediaRecorder : MediaRecorder) (stream : nat),
        inputText (snd (onstop P mediaRecorder stream w)) = inputText w
        \/ exists wavBlob result,
             transcribeAudio P wavBlob = Normal result /\ success result = true
             /\ inputText (snd (onstop P mediaRecorder stream w)) = text result)
  /\ (forall stream : nat,
        inputText (snd (Legacy.onstop P stream w)) = inputText w
        \/ exists blob result,
             transcribeAudio P blob = Normal result /\ success result = true
             /\ inputText (snd (Legacy.onstop P stream w)) = text result).
Proof.
  pose proof (handleAudioTranscription_inputText P audioBlob w) as (_ & Hi & _).
  split; [|split; [|split]].
  - intros [[e He] | (result & Hr & Hs)]; rewrite Hi.
    + now rewrite He.
    + now rewrite Hr, Hs.
  - intros Hne. rewrite Hi in Hne |- *.
    destruct (transcribeAudio P audioBlob) as [result | e]; [|congruence].
    destruct (success result) eqn:Hs; [eauto | congruence].
  - intros mediaRecorder stream. unfold onstop, get, mbind, M_bind.
    apply convertToWavAndTranscribe_outcome.
  - intros stream. unfold Legacy.onstop, get, stopTracks, modify, mbind, M_bind.
    match goal with
    | |- context [handleAudioTranscription P ?b w] =>
        pose proof (handleAudioTranscription_inputText P b w) as (Hc' & Hi' & _);
        destruct (handleAudioTranscription P b w) as [c w2];
        destruct (transcribeAudio P b) as [result | e] eqn:Ht
    end; cbn [fst snd] in *; subst c; cbn [snd inputText with_streams]; [|auto].
    destruct (success result) eqn:Hsucc; [right; eauto | left; exact Hi'].
Qed.

(* ===================================================================== *)
(** * Capture sessions *)
(* ===================================================================== *)

(** When the microphone is granted, the negotiated type is recordable and
    the recorder starts, [startRecording] leaves a fresh stream in the
    store, the new recorder in the ref, an empty chunk buffer and the
    recording flag up. *)
Lemma startRecording_started (P : Platform) (w : World) (tracks : MediaStream) :
  getUserMedia P = Normal tracks ->
  isTypeSupported P (recorderOptions (supportedTypes P)) = true ->
  recorderStartError P = None ->
  let recorder :=
    mkMediaRecorder (length (streams w)) (recorderOptions (supportedTypes P)) in
  startRecording P w
  = (Normal tt,
     mkWorld (inputText w) true (isTranscribing w) (Some recorder) []
       (streams w ++ [tracks])
       (calls w ++ [CallGetUserMedia; CallRecorderStart recorder])).
Proof.
  intros Hg Ht Hs recorder.
  unfold startRecording, navigator_getUserMedia, MediaRecorder_new, MediaRecorder_start.
  run_M. cbn. rewrite Hg. cbn. rewrite Ht. cbn. rewrite Hs. cbn.
  now rewrite <- app_assoc.
Qed.

(** When the stream is granted but the negotiated type cannot be
    recorded, the constructor throws before any handler is installed: the
    error is reported, nothing is recorded, and the granted stream stays
    in the store as it was granted. *)
Lemma startRecording_not_recordable (P : Platform) (w : World) (tracks : MediaStream) :
  getUserMedia P = Normal tracks ->
  isTypeSupported P (recorderOptions (supportedTypes P)) = false ->
  startRecording P w
  = (Normal tt,
     mkWorld (inputText w) (isRecording w) (isTranscribing w) (mediaRecorderRef w)
       (audioChunksRef w) (streams w ++ [tracks])
       (calls w ++ [CallGetUserMedia;
                    CallConsoleError (js "Error accessing microphone:");
                    CallAlert (js "Could not access microphone. Please check permissions.")])).
Proof.
  intros Hg Ht.
  unfold startRecording, navigator_getUserMedia, MediaRecorder_new, MediaRecorder_start.
  run_M. cbn. rewrite Hg. cbn. rewrite Ht. cbn.
  now rewrite <- !app_assoc.
Qed.

Lemma legacy_startRecording_started (P : Platform) (w : World) (tracks : MediaStream) :
  getUserMedia P = Normal tracks ->
  recorderStartError P = None ->
  let recorder := mkMediaRecorder (length (streams w)) [] in
  Legacy.startRecording P w
  = (Normal tt,
     mkWorld (inputText w) true (isTranscribing w) (Some recorder) []
       (streams w ++ [tracks])
       (calls w ++ [CallGetUserMedia; CallRecorderStart recorder])).
Proof.
  intros Hg Hs recorder.
  unfold Legacy.startRecording, navigator_getUserMedia, MediaRecorder_default,
    MediaRecorder_start.
  run_M. cbn. rewrite Hg. cbn. rewrite Hs. cbn.
  now rewrite <- app_assoc.
Qed.

(** The [dataavailable] events append the non-empty chunks, in order, and
    touch nothing else. *)
Lemma dataEvents_ondataavailable (chunks : list Blob) (w : World) :
  dataEvents ondataavailable chunks w
  = (Normal tt,
     mkWorld (inputText w) (isRecording w) (isTranscribing w) (mediaRecorderRef w)
       (audioChunksRef w ++ filter (fun c => (0 < blobSize c)%nat) chunks)
       (streams w) (calls w)).
Proof.
  revert w. induction chunks as [|c chunks IH]; intros w.
  - cbn. rewrite app_nil_r. now destruct w.
  - cbn [dataEvents]. unfold mbind, M_bind, ondataavailable at 1.
    rewrite filter_cons.
    destruct (Nat.ltb_spec 0 (blobSize c)) as [Hc | Hc].
    + rewrite decide_True by assumption. unfold modify. rewrite IH. cbn.
      now rewrite <- app_assoc.
    + rewrite decide_False by lia. unfold mret, M_ret. now rewrite IH.
Qed.

Lemma dataEvents_legacy (chunks : list Blob) (w : World) :
  dataEvents Legacy.ondataavailable chunks w
  = (Normal tt,
     mkWorld (inputText w) (isRecording w) (isTranscribing w) (mediaRecorderRef w)
       (audioChunksRef w ++ chunks) (streams w) (calls w)).
Proof.
  revert w. induction chunks as [|c chunks IH]; intros w.
  - cbn. rewrite app_nil_r. now destruct w.
  - cbn [dataEvents]. unfold mbind, M_bind, Legacy.ondataavailable at 1.
    unfold modify. rewrite IH. cbn. now rewrite <- app_assoc.
Qed.

(** Empty chunks add no bytes. *)
Lemma concat_nonempty_chunks (chunks : list Blob) :
  concat (blobData <$> filter (fun c => (0 < blobSize c)%nat) chunks)
  = concat (blobData <$> chunks).
Proof.
  induction chunks as [|c chunks IH]; [reflexivity|].
  rewrite filter_cons. destruct (decide (0 < blobSize c)%nat) as [Hc | Hc].
  - now rewrite !fmap_cons, !concat_cons, IH.
  - rewrite fmap_cons, concat_cons, IH. unfold blobSize in Hc.
    destruct (blobData c); [reflexivity | cbn in Hc; lia].
Qed.

Lemma length_concat_chunks (chunks : list Blob) :
  length (concat (blobData <$> chunks)) = sum_list (blobSize <$> chunks).
Proof.
  induction chunks as [|c chunks IH]; [reflexivity|].
  rewrite !fmap_cons, concat_cons, length_app, IH. reflexivity.
Qed.

(** Whenever [stop] fires, and whatever the audio context, the blob
    reader, the decoder and the transcription service then do, the
    handler returns normally and every track of its stream is ended. *)
Lemma onstop_releases_tracks
    (P : Platform) (mediaRecorder : MediaRecorder) (stream : nat) (w : World)
    (tracks : MediaStream) :
  streams w !! stream = Some tracks ->
  fst (onstop P mediaRecorder stream w) = Normal tt
  /\ streams (snd (onstop P mediaRecorder stream w)) !! stream
     = Some ((fun _ => ended) <$> tracks).
Proof.
  intros Hs. unfold onstop, get, mbind, M_bind.
  destruct (convertToWavAndTranscribe_outcome P
              (Blob_new (audioChunksRef w) (recMimeType mediaRecorder)) stream w)
    as (Hc & Hst & _).
  split; [exact Hc|]. rewrite Hst, list_lookup_alter, decide_True, Hs by reflexivity.
  reflexivity.
Qed.

(** C5.  Once a recording has started, the capture cycle ends, on every
    path through decoding, encoding and transcription (success or
    failure of any of them), with all tracks of the acquired stream
    stopped. *)
Theorem tracks_released_on_every_exit
    (P : Platform) (w0 : World) (tracks : MediaStream) (early late : list Blob) :
  getUserMedia P = Normal tracks ->
  isTypeSupported P (recorderOptions (supportedTypes P)) = true ->
  recorderStartError P = None ->
  let stream := length (streams w0) in
  let recorder := mkMediaRecorder stream (recorderOptions (supportedTypes P)) in
  exists w',
    recordingSession P recorder stream early late w0 = (Normal tt, w')
    /\ streams w' !! stream = Some ((fun _ => ended) <$> tracks)
    /\ (forall state, state ∈ (fun _ : ReadyState => ended) <$> tracks -> state = ended).
Proof.
  intros Hg Ht Hs stream recorder.
  unfold recordingSession, mbind, M_bind.
  rewrite (startRecording_started P w0 tracks Hg Ht Hs).
  rewrite dataEvents_ondataavailable. cbn [inputText isRecording isTranscribing
    mediaRecorderRef audioChunksRef streams calls].
  rewrite (stopRecording_active _ recorder) by reflexivity.
  rewrite dataEvents_ondataavailable.
  match goal with
  | |- context [onstop P recorder stream ?w4] =>
      destruct (onstop_releases_tracks P recorder stream w4 tracks) as [Hc Hst];
      [ cbn; now rewrite lookup_app_r, Nat.sub_diag by lia
      | destruct (onstop P recorder stream w4) as [c w'] ]
  end.
  cbn [fst snd] in *. subst c. exists w'.
  split; [reflexivity|]. split; [exact Hst|].
  intros state Hin. apply list_elem_of_fmap in Hin as (? & -> & _). reflexivity.
Qed.

(** C6.  In a start/stop cycle the chunk buffer holds, when [stop] fires,
    the non-empty chunks of this session in arrival order and nothing
    left over from before; the recorder was asked to stop once; the
    [onstop] handler hands one blob to the next stage, whose bytes are
    the chunks concatenated in arrival order and whose size is the sum of
    the chunk sizes.  The earlier revision does the same and sends that
    blob to the transcription service. *)
Theorem session_blob_is_concatenation
    (P : Platform) (w0 : World) (tracks : MediaStream) (early late : list Blob) :
  getUserMedia P = Normal tracks ->
  isTypeSupported P (recorderOptions (supportedTypes P)) = true ->
  recorderStartError P = None ->
  let stream := length (streams w0) in
  let recorder := mkMediaRecorder stream (recorderOptions (supportedTypes P)) in
  let chunks := early ++ late in
  let audioBlob := mkBlob (concat (blobData <$> chunks)) (recMimeType recorder) in
  (exists w,
     (startRecording P;; dataEvents ondataavailable early;; stopRecording;;
      dataEvents ondataavailable late) w0 = (Normal tt, w)
     /\ audioChunksRef w = filter (fun c => (0 < blobSize c)%nat) chunks
     /\ calls w = calls w0 ++ [CallGetUserMedia; CallRecorderStart recorder;
                               CallRecorderStop recorder]
     /\ onstop P recorder stream w
        = convertToWavAndTranscribe P audioBlob stream w
     /\ recordingSession P recorder stream early late w0
        = convertToWavAndTranscribe P audioBlob stream w)
  /\ blobSize audioBlob = sum_list (blobSize <$> chunks)
  /\ (let legacyBlob := mkBlob (concat (blobData <$> chunks)) (js "audio/wav") in
      exists w,
        (Legacy.startRecording P;; dataEvents Legacy.ondataavailable early;;
         stopRecording;; dataEvents Legacy.ondataavailable late) w0 = (Normal tt, w)
        /\ audioChunksRef w = chunks
        /\ Legacy.onstop P stream w
           = (handleAudioTranscription P legacyBlob;; stopTracks stream) w
        /\ legacySession P stream early late w0
           = (handleAudioTranscription P legacyBlob;; stopTracks stream) w).
Proof.
  intros Hg Ht Hs stream recorder chunks audioBlob.
  split; [|split].
  - unfold recordingSession, mbind, M_bind.
    rewrite (startRecording_started P w0 tracks Hg Ht Hs).
    rewrite dataEvents_ondataavailable. cbn [inputText isRecording isTranscribing
      mediaRecorderRef audioChunksRef streams calls].
    rewrite (stopRecording_active _ recorder) by reflexivity.
    rewrite dataEvents_ondataavailable. cbn [inputText isRecording isTranscribing
      mediaRecorderRef audioChunksRef streams calls with_isRecording with_calls app].
    eexists. split; [reflexivity|].
    cbn [audioChunksRef calls].
    assert (Hon : forall w, audioChunksRef w = filter (fun c => (0 < blobSize c)%nat) chunks ->
                            onstop P recorder stream w
                            = convertToWavAndTranscribe P audioBlob stream w).
    { intros w Hw. unfold onstop, get, mbind, M_bind, Blob_new.
      now rewrite Hw, concat_nonempty_chunks. }
    split; [unfold chunks; now rewrite filter_app|].
    split; [now rewrite <- app_assoc|].
    split; apply Hon; cbn [audioChunksRef]; unfold chunks; now rewrite filter_app.
  - unfold blobSize at 1. cbn [blobData audioBlob]. apply length_concat_chunks.
  - intros legacyBlob. unfold legacySession, mbind at 1 2 3 5 6 7 8, M_bind.
    rewrite (legacy_startRecording_started P w0 tracks Hg Hs).
    rewrite dataEvents_legacy. cbn [inputText isRecording isTranscribing
      mediaRecorderRef audioChunksRef streams calls].
    rewrite (stopRecording_active _ (mkMediaRecorder (length (streams w0)) []))
      by reflexivity.
    rewrite dataEvents_legacy. cbn [inputText isRecording isTranscribing
      mediaRecorderRef audioChunksRef streams calls with_isRecording with_calls app].
    eexists. split; [reflexivity|]. cbn [audioChunksRef].
    split; [reflexivity|].
    split; reflexivity.
Qed.

(* ===================================================================== *)
(** * The properties at a concrete platform and session *)
(* ===================================================================== *)

Lemma wav_header_configuration_witness :
  0 <= sampleRate (mkAudioBuffer 16000 [Finite (1 # 2); Finite (-1)] []) < 2 ^ 31
  /\ exists wav h,
       audioBufferToWav (mkAudioBuffer 16000 [Finite (1 # 2); Finite (-1)] []) = Some wav
       /\ parseHeader (blobData wav) = Some h
       /\ samplesPerSec h = 16000 /\ byteRate h = 32000
       /\ channelCount h = 1 /\ bitsPerSample h = 16.
Proof.
  assert (H : 0 <= sampleRate (mkAudioBuffer 16000 [Finite (1 # 2); Finite (-1)] [])
              < 2 ^ 31)
    by (split; [discriminate | reflexivity]).
  split; [exact H|].
  destruct (wav_header_configuration
              (mkAudioBuffer 16000 [Finite (1 # 2); Finite (-1)] []) H)
    as (wav & h & H1 & _ & H2 & _ & _ & _ & _ & _ & _ & H3 & _ & _ & _ & H5 & H6).
  exists wav, h. split; [exact H1|]. split; [exact H2|].
  destruct (H6 eq_refl) as [H7 H8].
  repeat split; assumption.
Defined.

Lemma wav_round_trip_witness :
  getChannelData0 (mkAudioBuffer 16000 [Finite (1 # 2); Finite (-1)] [])
  = Finite <$> [1 # 2; -1]%Q
  /\ Forall (fun s => (-1 <= s <= 1)%Q) [1 # 2; -1]%Q
  /\ exists wav,
       audioBufferToWav (mkAudioBuffer 16000 [Finite (1 # 2); Finite (-1)] []) = Some wav
       /\ length (decodeWav (blobData wav)) = 2%nat.
Proof.
  assert (Hr : Forall (fun s => (-1 <= s <= 1)%Q) [1 # 2; -1]%Q).
  { repeat constructor; discriminate. }
  split; [reflexivity|]. split; [exact Hr|].
  destruct (wav_round_trip (mkAudioBuffer 16000 [Finite (1 # 2); Finite (-1)] [])
              [1 # 2; -1]%Q eq_refl Hr) as (wav & H1 & H2 & _).
  exists wav. split; assumption.
Defined.

Lemma samplePlatform_records :
  isTypeSupported samplePlatform (recorderOptions (supportedTypes samplePlatform)) = true.
Proof. vm_compute. reflexivity. Defined.

Lemma tracks_released_on_every_exit_witness :
  getUserMedia samplePlatform = Normal [live]
  /\ isTypeSupported samplePlatform (recorderOptions (supportedTypes samplePlatform)) = true
  /\ recorderStartError samplePlatform = None
  /\ exists w',
       recordingSession samplePlatform
         (mkMediaRecorder 0 (recorderOptions (supportedTypes samplePlatform))) 0
         [sampleChunk] [sampleChunk] initialWorld = (Normal tt, w')
       /\ streams w' !! 0%nat = Some [ended].
Proof.
  split; [reflexivity|]. split; [exact samplePlatform_records|]. split; [reflexivity|].
  destruct (tracks_released_on_every_exit samplePlatform initialWorld [live]
              [sampleChunk] [sampleChunk] eq_refl samplePlatform_records eq_refl)
    as (w' & H1 & H2 & _).
  exists w'. split; assumption.
Defined.

Lemma session_blob_is_concatenation_witness :
  getUserMedia samplePlatform = Normal [live]
  /\ isTypeSupported samplePlatform (recorderOptions (supportedTypes samplePlatform)) = true
  /\ recorderStartError samplePlatform = None
  /\ blobSize (mkBlob (concat (blobData <$> [sampleChunk] ++ [sampleChunk]))
                 (recorderOptions (supportedTypes samplePlatform)))
     = sum_list (blobSize <$> [sampleChunk] ++ [sampleChunk]).
Proof.
  split; [reflexivity|]. split; [exact samplePlatform_records|]. split; [reflexivity|].
  exact (proj1 (proj2 (session_blob_is_concatenation samplePlatform initialWorld [live]
                         [sampleChunk] [sampleChunk]
                         eq_refl samplePlatform_records eq_refl))).
Defined.

(** ** The model run on concrete inputs *)

Example trim_example : trim (js "  what is ML? ") = js "what is ML?".
Proof. vm_compute. reflexivity. Qed.

Example handleSendText_example :
  handleSendText (mkProps false) (with_inputText (js "  what is ML? ") initialWorld)
  = (Normal tt, with_calls [CallOnSendMessage (js "what is ML?")] initialWorld)
  /\ handleSendText (mkProps true) (with_inputText (js "  what is ML? ") initialWorld)
     = (Normal tt, with_inputText (js "  what is ML? ") initialWorld)
  /\ handleSendText (mkProps false) (with_inputText (js "   ") initialWorld)
     = (Normal tt, with_inputText (js "   ") initialWorld).
Proof. repeat split; vm_compute; reflexivity. Qed.

Example recorderOptions_example :
  recorderOptions (supportedTypes samplePlatform) = js "audio/webm;codecs=opus"
  /\ recorderOptions ∅ = js "audio/webm"
  /\ recorderOptions ({[ js "audio/wav" ]} ∪ supportedTypes samplePlatform)
     = js "audio/wav".
Proof. repeat split; vm_compute; reflexivity. Qed.

(** The file for the two samples 0.5 and -1: the header with sizes 40 and
    4, then 0x3FFF and 0x8000, least significant byte first. *)
Example audioBufferToWav_example :
  (fun wav => byte.unsigned <$> blobData wav)
    <$> audioBufferToWav (mkAudioBuffer 16000 [Finite (1 # 2); Finite (-1)] [])
  = Some [82; 73; 70; 70; 40; 0; 0; 0; 87; 65; 86; 69; 102; 109; 116; 32;
          16; 0; 0; 0; 1; 0; 1; 0; 128; 62; 0; 0; 0; 125; 0; 0; 2; 0; 16; 0;
          100; 97; 116; 97; 4; 0; 0; 0; 255; 63; 0; 128].
Proof. vm_compute. reflexivity. Qed.

(** A whole session on the sample platform: the transcript reaches the
    input field, the track is ended, and the outside calls are, in
    order, the microphone request, the recorder start and stop, one
    decode of the four recorded bytes and one upload. *)
Example recordingSession_example :
  let recorder := mkMediaRecorder 0 (js "audio/webm;codecs=opus") in
  exists w wav,
    recordingSession samplePlatform recorder 0 [sampleChunk] [sampleChunk] initialWorld
    = (Normal tt, w)
    /\ inputText w = js "hello"
    /\ isRecording w = false /\ isTranscribing w = false
    /\ streams w = [[ended]]
    /\ calls w = [CallGetUserMedia; CallRecorderStart recorder; CallRecorderStop recorder;
                  CallDecodeAudioData (blobData sampleChunk ++ blobData sampleChunk);
                  CallTranscribeAudio wav].
Proof. vm_compute. eexists _, _. repeat split. Qed.

(* ===================================================================== *)
(** * Further properties of the encoder *)
(* ===================================================================== *)

Lemma ToInt16_range (x : Number) : - 2 ^ 15 <= ToInt16 x < 2 ^ 15.
Proof.
  destruct x as [q| | |]; cbn; try lia.
  pose proof (Z.mod_pos_bound (truncate q) (2 ^ 16) eq_refl) as Hm.
  change (2 ^ 16) with 65536 in *. change (2 ^ 15) with 32768 in *.
  destruct (Z.leb_spec 32768 (truncate q mod 65536)); lia.
Qed.

Lemma payload_parse (channelData : list Number) (header : list byte) :
  length header = 44%nat ->
  parseSamples (drop 44 (header ++ concat (le_split 2 <$> convertSamples channelData)))
  = convertSamples channelData.
Proof.
  intros Hh. rewrite drop_app_length' by (symmetry; exact Hh).
  apply parseSamples_payload. rewrite convertSamples_map.
  apply Forall_fmap, Forall_forall. intros x _. apply ToInt16_range.
Qed.

(** X1.  Whatever the channel holds (NaN, infinities and values outside
    [[-1, 1]] included), the encoder returns a file, every converted
    sample is a 16-bit signed integer, and reading the payload back as
    little-endian 16-bit words gives the converted samples exactly. *)
Theorem payload_reads_back_exactly (audioBuffer : AudioBuffer) :
  exists wav,
    audioBufferToWav audioBuffer = Some wav
    /\ Forall (fun v => -32768 <= v <= 32767)
         (convertSamples (getChannelData0 audioBuffer))
    /\ length (convertSamples (getChannelData0 audioBuffer))
       = length (getChannelData0 audioBuffer)
    /\ parseSamples (drop 44 (blobData wav))
       = convertSamples (getChannelData0 audioBuffer).
Proof.
  eexists. split; [apply audioBufferToWav_spec|]. unfold getChannelData0.
  assert (Hr : Forall (fun v => - 2 ^ 15 <= v < 2 ^ 15)
                 (convertSamples (channel0 audioBuffer))).
  { rewrite convertSamples_map. apply Forall_fmap, Forall_forall.
    intros x _. apply ToInt16_range. }
  split; [|split].
  - eapply Forall_impl; [exact Hr|]. cbn. intros v Hv. lia.
  - apply convertSamples_length.
  - cbn [blobData]. rewrite drop_app_length' by reflexivity.
    now apply parseSamples_payload.
Qed.

Lemma truncate_mono (x y : Q) : (x <= y)%Q -> truncate x <= truncate y.
Proof.
  destruct x as [n d], y as [m e]. unfold Qle, truncate. cbn [Qnum Qden].
  intros Hle.
  destruct (quot_rem_cases n (Z.pos d)) as (r & Hn & Hcn); [reflexivity|].
  destruct (quot_rem_cases m (Z.pos e)) as (r' & Hm & Hcm); [reflexivity|].
  generalize dependent (n ÷ Z.pos d). intros t Hn Hcn.
  generalize dependent (m ÷ Z.pos e). intros u Hm Hcm.
  assert (Hd : 0 < Z.pos d) by reflexivity.
  assert (He : 0 < Z.pos e) by reflexivity.
  remember (Z.pos d) as D eqn:HeqD. remember (Z.pos e) as E eqn:HeqE.
  clear HeqD HeqE d e.
  destruct (Z.le_gt_cases t u) as [|Hgt]; [assumption|exfalso].
  assert (Hstep : E * D <= E * D * (t - u)) by nia.
  destruct Hcn as [(Hn0 & Ht & Hr) | (Hn0 & Ht & Hr)];
    destruct Hcm as [(Hm0 & Hu & Hr') | (Hm0 & Hu & Hr')]; nia.
Qed.

Lemma clamp_mono (s s' : Q) : (s <= s')%Q -> (clamp s <= clamp s')%Q.
Proof.
  intros H. unfold clamp.
  apply Q.max_le_compat_l, Q.min_le_compat_l, H.
Qed.

Lemma quantize_sign (c : Q) :
  ((c < 0)%Q -> quantize c <= 0) /\ ((0 <= c)%Q -> 0 <= quantize c).
Proof.
  unfold quantize. split; intros H.
  - rewrite (proj2 (Qltb_lt c 0) H).
    change 0 with (truncate 0). apply truncate_mono.
    rewrite <- (Qmult_0_l 32768). apply Qmult_le_compat_r; [|discriminate].
    now apply Qlt_le_weak.
  - rewrite (proj2 (Qltb_ge c 0) H).
    change 0 with (truncate 0). apply truncate_mono.
    rewrite <- (Qmult_0_l 32767). apply Qmult_le_compat_r; [assumption|discriminate].
Qed.

Lemma quantize_mono (c c' : Q) : (c <= c')%Q -> quantize c <= quantize c'.
Proof.
  intros H.
  destruct (Qlt_le_dec c 0) as [Hc | Hc], (Qlt_le_dec c' 0) as [Hc' | Hc'].
  - unfold quantize. rewrite (proj2 (Qltb_lt c 0) Hc), (proj2 (Qltb_lt c' 0) Hc').
    apply truncate_mono, Qmult_le_compat_r; [assumption|discriminate].
  - transitivity 0; [now apply quantize_sign | now apply quantize_sign].
  - exfalso. apply (Qlt_irrefl 0).
    apply Qle_lt_trans with c; [assumption|].
    now apply Qle_lt_trans with c'.
  - unfold quantize. rewrite (proj2 (Qltb_ge c 0) Hc), (proj2 (Qltb_ge c' 0) Hc').
    apply truncate_mono, Qmult_le_compat_r; [assumption|discriminate].
Qed.

(** X2.  Quantization preserves order and sign: a larger finite sample
    is never stored as a smaller integer, a negative sample is stored as
    an integer at most 0 and a non-negative one as an integer at least
    0. *)
Theorem quantization_monotone (s s' : Q) :
  (s <= s')%Q ->
  ToInt16 (scaleSample (Finite s)) <= ToInt16 (scaleSample (Finite s'))
  /\ ((s < 0)%Q -> ToInt16 (scaleSample (Finite s)) <= 0)
  /\ ((0 <= s)%Q -> 0 <= ToInt16 (scaleSample (Finite s))).
Proof.
  intros H. rewrite !storeSample_Finite. split; [|split].
  - now apply quantize_mono, clamp_mono.
  - intros Hs. change 0 with (quantize (clamp 0)).
    now apply quantize_mono, clamp_mono, Qlt_le_weak.
  - intros Hs. change 0 with (quantize (clamp 0)).
    now apply quantize_mono, clamp_mono.
Qed.

Lemma quantization_monotone_witness :
  (-1 # 3 <= 1 # 2)%Q
  /\ ToInt16 (scaleSample (Finite (-1 # 3))) <= ToInt16 (scaleSample (Finite (1 # 2))).
Proof.
  assert (H : (-1 # 3 <= 1 # 2)%Q) by discriminate.
  split; [exact H|].
  exact (proj1 (quantization_monotone (-1 # 3) (1 # 2) H)).
Defined.

(** X3.  Samples outside [[-1, 1]] saturate: every finite sample at
    least 1, and positive infinity, is stored as 32767; every finite
    sample at most -1, and negative infinity, as -32768; NaN is stored
    as 0. *)
Theorem quantization_saturates (channelData : list Number) (i : nat) (x : Number) :
  channelData !! i = Some x ->
  (forall s, x = Finite s -> (1 <= s)%Q -> convertSamples channelData !! i = Some 32767)
  /\ (forall s, x = Finite s -> (s <= -1)%Q ->
      convertSamples channelData !! i = Some (-32768))
  /\ (x = PosInfinity -> convertSamples channelData !! i = Some 32767)
  /\ (x = NegInfinity -> convertSamples channelData !! i = Some (-32768))
  /\ (x = NaN -> convertSamples channelData !! i = Some 0).
Proof.
  intros Hi. rewrite convertSamples_map, list_lookup_fmap, Hi.
  cbn [fmap option_fmap option_map].
  split; [|split; [|split; [|split]]].
  - intros s -> Hs. rewrite storeSample_Finite. f_equal.
    rewrite (quantize_Qeq (clamp s) 1); [reflexivity|].
    unfold clamp. rewrite (Q.min_l 1 s) by assumption. now apply Q.max_r.
  - intros s -> Hs. rewrite storeSample_Finite. f_equal.
    rewrite (quantize_Qeq (clamp s) (-1)); [reflexivity|].
    unfold clamp. rewrite (Q.min_r 1 s).
    + now apply Q.max_l.
    + apply Qle_trans with (-1)%Q; [assumption | discriminate].
  - now intros ->.
  - now intros ->.
  - now intros ->.
Qed.

Lemma quantization_saturates_witness :
  [Finite 5; NaN; NegInfinity] !! 0%nat = Some (Finite 5)
  /\ convertSamples [Finite 5; NaN; NegInfinity] !! 0%nat = Some 32767.
Proof.
  split; [reflexivity|].
  apply (proj1 (quantization_saturates [Finite 5; NaN; NegInfinity] 0 (Finite 5) eq_refl)
           5%Q eq_refl).
  discriminate.
Defined.

(** X4.  The header reports the rate of the buffer it was given: for a
    buffer whose rate fits 31 bits the sample-rate field reads back as
    that rate, the byte rate as twice it (2 bytes per sample frame) and
    the block align as 2. *)
Theorem header_reports_buffer_rate (audioBuffer : AudioBuffer) :
  0 <= sampleRate audioBuffer < 2 ^ 31 ->
  exists wav h,
    audioBufferToWav audioBuffer = Some wav
    /\ parseHeader (blobData wav) = Some h
    /\ samplesPerSec h = sampleRate audioBuffer
    /\ byteRate h = 2 * sampleRate audioBuffer
    /\ blockAlign h = 2
    /\ byteRate h = samplesPerSec h * blockAlign h.
Proof.
  intros Hr.
  destruct (audioBufferToWav_header audioBuffer) as (wav & Hwav & _ & _ & _ & Hh).
  eexists wav, _. split; [exact Hwav|]. split; [exact Hh|].
  cbn [samplesPerSec byteRate blockAlign].
  rewrite !Z.mod_small by lia. repeat split; lia.
Qed.

Lemma header_reports_buffer_rate_witness :
  0 <= sampleRate (mkAudioBuffer 44100 [Finite 0] []) < 2 ^ 31
  /\ exists wav h,
       audioBufferToWav (mkAudioBuffer 44100 [Finite 0] []) = Some wav
       /\ parseHeader (blobData wav) = Some h
       /\ samplesPerSec h = 44100 /\ byteRate h = 88200.
Proof.
  assert (H : 0 <= sampleRate (mkAudioBuffer 44100 [Finite 0] []) < 2 ^ 31)
    by (split; [discriminate | reflexivity]).
  split; [exact H|].
  destruct (header_reports_buffer_rate (mkAudioBuffer 44100 [Finite 0] []) H)
    as (wav & h & H1 & H2 & H3 & H4 & _).
  exists wav, h. repeat split; assumption.
Defined.

(* ===================================================================== *)
(** * Further properties of the chat component *)
(* ===================================================================== *)

(** X5.  A key press sends only for Enter without Shift: then the
    default action is prevented (no line break is typed) and the handler
    behaves as [handleSendText]; for any other key, or with Shift held,
    the default is kept and nothing changes.  So if the state changed,
    the key was an unshifted Enter, the trimmed input was not empty and
    no request was in flight. *)
Theorem handleKeyPress_enter_only (props : Props) (e : KeyboardEvent) (w : World) :
  fst (handleKeyPress props e w)
  = Normal (bool_decide (key e = js "Enter") && negb (shiftKey e))
  /\ (key e <> js "Enter" \/ shiftKey e = true -> snd (handleKeyPress props e w) = w)
  /\ (key e = js "Enter" -> shiftKey e = false ->
      snd (handleKeyPress props e w) = snd (handleSendText props w))
  /\ (snd (handleKeyPress props e w) <> w ->
      key e = js "Enter" /\ shiftKey e = false
      /\ trim (inputText w) <> [] /\ isLoading props = false).
Proof.
  unfold handleKeyPress, handleSendText. run_M.
  assert (Hfin : forall A B C D : Prop, A -> B -> C -> D -> A /\ B /\ C /\ D) by tauto.
  destruct (bool_decide_reflect (key e = js "Enter")) as [Hk | Hk];
    destruct (shiftKey e) eqn:Hs; cbn [andb negb fst snd].
  - apply Hfin; [reflexivity | reflexivity | congruence | congruence].
  - destruct (trim (inputText w)) as [|c m] eqn:Ht; cbn [truthy andb];
      [|destruct (isLoading props); cbn [negb]];
      cbn [fst snd]; apply Hfin; try reflexivity;
      try (intros [? | ?]; congruence); try congruence.
    intros _. repeat split; congruence.
  - apply Hfin; [reflexivity | reflexivity | congruence | congruence].
  - apply Hfin; [reflexivity | reflexivity | congruence | congruence].
Qed.

(** X6.  When the microphone request is rejected, [startRecording] does
    not throw: it reports the error with one alert and leaves the flags,
    the recorder ref, the chunk buffer and the stream store as they
    were; no recorder is started. *)
Theorem startRecording_denied (P : Platform) (w : World) (e : jsstring) :
  getUserMedia P = Throw e ->
  startRecording P w
  = (Normal tt,
     with_calls (calls w ++ [CallGetUserMedia;
                             CallConsoleError (js "Error accessing microphone:");
                             CallAlert (js "Could not access microphone. Please check permissions.")])
       w)
  /\ alerts (calls (snd (startRecording P w)))
     = alerts (calls w) ++ [js "Could not access microphone. Please check permissions."].
Proof.
  intros Hg.
  assert (Hrun : startRecording P w
    = (Normal tt,
       with_calls (calls w ++ [CallGetUserMedia;
                               CallConsoleError (js "Error accessing microphone:");
                               CallAlert (js "Could not access microphone. Please check permissions.")])
         w)).
  { unfold startRecording, navigator_getUserMedia. run_M. cbn. rewrite Hg. cbn.
    unfold with_calls. cbn. now rewrite <- !app_assoc. }
  split; [exact Hrun|]. rewrite Hrun. cbn [snd calls with_calls].
  unfold alerts. now rewrite omap_app.
Qed.

Lemma startRecording_denied_witness :
  getUserMedia deniedPlatform = Throw (js "NotAllowedError")
  /\ alerts (calls (snd (startRecording deniedPlatform initialWorld)))
     = [js "Could not access microphone. Please check permissions."].
Proof.
  split; [reflexivity|].
  exact (proj2 (startRecording_denied deniedPlatform initialWorld
                  (js "NotAllowedError") eq_refl)).
Defined.

(** X7.  When the microphone is granted but the recorder cannot be
    built for the negotiated type, or its [start()] throws,
    [startRecording] does not throw and alerts once; the granted stream
    is in the store with its tracks as granted (they are not stopped) and
    the recording flag is as before, so that from an idle state a later
    [stopRecording] does nothing. *)
Theorem startRecording_failure_keeps_tracks
    (P : Platform) (w : World) (tracks : MediaStream) :
  getUserMedia P = Normal tracks ->
  isTypeSupported P (recorderOptions (supportedTypes P)) = false
  \/ (exists e, recorderStartError P = Some e) ->
  fst (startRecording P w) = Normal tt
  /\ streams (snd (startRecording P w)) = streams w ++ [tracks]
  /\ isRecording (snd (startRecording P w)) = isRecording w
  /\ alerts (calls (snd (startRecording P w)))
     = alerts (calls w) ++ [js "Could not access microphone. Please check permissions."]
  /\ (isRecording w = false ->
      stopRecording (snd (startRecording P w)) = (Normal tt, snd (startRecording P w))).
Proof.
  intros Hg Hfail.
  assert (Hrun : exists ref chunks extra,
    startRecording P w
    = (Normal tt,
       mkWorld (inputText w) (isRecording w) (isTranscribing w) ref chunks
         (streams w ++ [tracks])
         (calls w ++ CallGetUserMedia :: extra
            ++ [CallConsoleError (js "Error accessing microphone:");
                CallAlert (js "Could not access microphone. Please check permissions.")]))
    /\ alerts extra = []).
  { unfold startRecording, navigator_getUserMedia, MediaRecorder_new, MediaRecorder_start.
    run_M. cbn. rewrite Hg. cbn.
    destruct (isTypeSupported P (recorderOptions (supportedTypes P))) eqn:Ht.
    - destruct Hfail as [Hf | [e He]]; [discriminate|]. rewrite He. cbn.
      eexists _, _, [CallRecorderStart
                       (mkMediaRecorder (length (streams w))
                          (recorderOptions (supportedTypes P)))].
      split; [now rewrite <- !app_assoc | reflexivity].
    - cbn. eexists _, _, []. split; [now rewrite <- !app_assoc | reflexivity]. }
  destruct Hrun as (ref & chunks & extra & -> & Hextra). cbn [fst snd streams isRecording calls].
  split; [reflexivity|]. split; [reflexivity|]. split; [reflexivity|]. split.
  - unfold alerts in *.
    change (CallGetUserMedia :: extra ++ ?t) with ([CallGetUserMedia] ++ extra ++ t).
    rewrite !omap_app, Hextra. reflexivity.
  - intros Hrec. unfold stopRecording, get, mbind, M_bind, mret, M_ret.
    cbn [mediaRecorderRef isRecording]. rewrite Hrec. now destruct ref.
Qed.

Lemma startRecording_failure_keeps_tracks_witness :
  getUserMedia unrecordablePlatform = Normal [live; live]
  /\ (isTypeSupported unrecordablePlatform
        (recorderOptions (supportedTypes unrecordablePlatform)) = false
      \/ exists e, recorderStartError unrecordablePlatform = Some e)
  /\ streams (snd (startRecording unrecordablePlatform initialWorld)) = [[live; live]].
Proof.
  assert (H : isTypeSupported unrecordablePlatform
                (recorderOptions (supportedTypes unrecordablePlatform)) = false)
    by (vm_compute; reflexivity).
  split; [reflexivity|]. split; [left; exact H|].
  exact (proj1 (proj2 (startRecording_failure_keeps_tracks unrecordablePlatform
                         initialWorld [live; live] eq_refl (or_introl H)))).
Defined.

(** X8.  Stopping twice is stopping once: the second [stopRecording]
    finds the flag down and does not call [stop()] on the recorder
    again. *)
Theorem stopRecording_idempotent (w : World) :
  (stopRecording;; stopRecording) w = stopRecording w
  /\ (length (stopRequests (calls (snd ((stopRecording;; stopRecording) w))))
      <= S (length (stopRequests (calls w))))%nat.
Proof.
  unfold stopRecording, get, MediaRecorder_stop, call, setIsRecording, modify,
    mbind, M_bind, mret, M_ret.
  destruct (mediaRecorderRef w) as [recorder|] eqn:Href;
    destruct (isRecording w) eqn:Hrec; cbn; rewrite ?Href, ?Hrec; cbn;
    (split; [reflexivity|]); unfold stopRequests; rewrite ?omap_app, ?length_app;
    cbn; lia.
Qed.

(** The two parts of [startRecording] make up the whole. *)
Lemma startRecording_suspends (P : Platform) (w : World) :
  startRecording P w = (startRecording_requested;; startRecording_settled P) w.
Proof.
  unfold startRecording, startRecording_requested, startRecording_settled,
    navigator_getUserMedia.
  run_M. now destruct (getUserMedia P).
Qed.

(** What a granted request does on settlement, on a platform where
    recording starts. *)
Lemma startRecording_settled_started (P : Platform) (w : World) (tracks : MediaStream) :
  getUserMedia P = Normal tracks ->
  isTypeSupported P (recorderOptions (supportedTypes P)) = true ->
  recorderStartError P = None ->
  let recorder :=
    mkMediaRecorder (length (streams w)) (recorderOptions (supportedTypes P)) in
  startRecording_settled P w
  = (Normal tt,
     mkWorld (inputText w) true (isTranscribing w) (Some recorder) []
       (streams w ++ [tracks]) (calls w ++ [CallRecorderStart recorder])).
Proof.
  intros Hg Ht Hs recorder.
  unfold startRecording_settled, MediaRecorder_new, MediaRecorder_start.
  run_M. rewrite Hg. cbn. rewrite Ht. cbn. rewrite Hs. reflexivity.
Qed.

(** X9.  [toggleRecording] does not wait for [startRecording].  From an
    idle state a press only makes the microphone request and returns
    with the recording flag still down.  On a platform where recording
    starts: if that request settles before the next press, two presses
    make one recording (the second stops the recorder the first
    started); if the second press comes while the request is pending,
    both presses start a recording: two streams are acquired, two
    recorders are started, none is stopped, and the recorder ref holds
    the second only. *)
Theorem toggleRecording_suspends_start
    (P : Platform) (w : World) (tracks : MediaStream) :
  isRecording w = false ->
  getUserMedia P = Normal tracks ->
  isTypeSupported P (recorderOptions (supportedTypes P)) = true ->
  recorderStartError P = None ->
  let options := recorderOptions (supportedTypes P) in
  let first := mkMediaRecorder (length (streams w)) options in
  let second := mkMediaRecorder (S (length (streams w))) options in
  toggleRecording w = (Normal true, with_calls (calls w ++ [CallGetUserMedia]) w)
  /\ pressesSettledBetween P w
     = (Normal tt,
        mkWorld (inputText w) false (isTranscribing w) (Some first) []
          (streams w ++ [tracks])
          (calls w ++ [CallGetUserMedia; CallRecorderStart first;
                       CallRecorderStop first]))
  /\ pressesWhilePending P w
     = (Normal tt,
        mkWorld (inputText w) true (isTranscribing w) (Some second) []
          (streams w ++ [tracks; tracks])
          (calls w ++ [CallGetUserMedia; CallGetUserMedia;
                       CallRecorderStart first; CallRecorderStart second])).
Proof.
  intros Hidle Hg Ht Hs options first second.
  assert (Hpress : forall v, isRecording v = false ->
            toggleRecording v = (Normal true, with_calls (calls v ++ [CallGetUserMedia]) v)).
  { intros v Hv. unfold toggleRecording, startRecording_requested. run_M.
    now rewrite Hv. }
  split; [now apply Hpress|]. split.
  - unfold pressesSettledBetween, mbind, M_bind.
    rewrite (Hpress w Hidle). cbn [settle].
    rewrite (startRecording_settled_started P _ tracks Hg Ht Hs).
    cbn [with_calls inputText isTranscribing streams calls].
    unfold toggleRecording at 1. unfold get, mbind, M_bind. cbn beta iota.
    cbn [isRecording].
    rewrite (stopRecording_active _ first) by reflexivity.
    cbn. now rewrite <- !app_assoc.
  - unfold pressesWhilePending, mbind, M_bind.
    rewrite (Hpress w Hidle).
    rewrite (Hpress (with_calls (calls w ++ [CallGetUserMedia]) w)) by exact Hidle.
    cbn [settle].
    rewrite (startRecording_settled_started P _ tracks Hg Ht Hs).
    rewrite (startRecording_settled_started P _ tracks Hg Ht Hs).
    cbn [with_calls inputText isTranscribing streams calls].
    rewrite length_app, Nat.add_1_r.
    now rewrite <- !app_assoc.
Qed.

Lemma toggleRecording_suspends_start_witness :
  isRecording initialWorld = false
  /\ getUserMedia samplePlatform = Normal [live]
  /\ isTypeSupported samplePlatform (recorderOptions (supportedTypes samplePlatform)) = true
  /\ recorderStartError samplePlatform = None
  /\ isRecording (snd (toggleRecording initialWorld)) = false
  /\ length (streams (snd (pressesSettledBetween samplePlatform initialWorld))) = 1%nat
  /\ length (streams (snd (pressesWhilePending samplePlatform initialWorld))) = 2%nat.
Proof.
  split; [reflexivity|]. split; [reflexivity|].
  split; [exact samplePlatform_records|]. split; [reflexivity|].
  destruct (toggleRecording_suspends_start samplePlatform initialWorld [live]
              eq_refl eq_refl samplePlatform_records eq_refl) as (H1 & H2 & H3).
  rewrite H1, H2, H3. repeat split; reflexivity.
Defined.

(** The whole effect of one [handleAudioTranscription]. *)
Lemma handleAudioTranscription_run (P : Platform) (audioBlob : Blob) (w : World) :
  handleAudioTranscription P audioBlob w
  = (Normal tt,
     mkWorld
       (match transcribeAudio P audioBlob with
        | Normal result => if success result then text result else inputText w
        | Throw _ => inputText w
        end)
       (isRecording w) false (mediaRecorderRef w) (audioChunksRef w) (streams w)
       (calls w ++ CallTranscribeAudio audioBlob ::
          match transcribeAudio P audioBlob with
          | Normal result =>
              if success result then []
              else [CallAlert (js "Could not transcribe audio: " ++ error result)]
          | Throw _ =>
              [CallConsoleError (js "Transcription error:");
               CallAlert (js "Transcription failed. Please try again.")]
          end)).
Proof.
  unfold handleAudioTranscription. run_M. cbn.
  destruct (transcribeAudio P audioBlob) as [result | e]; cbn.
  - destruct (success result); cbn; unfold with_isTranscribing, with_calls,
      with_inputText; cbn; now rewrite <- ?app_assoc.
  - unfold with_isTranscribing, with_calls; cbn. now rewrite <- !app_assoc.
Qed.

(** X10.  One [handleAudioTranscription] makes exactly one upload, of
    the blob it was given, and raises an alert exactly when the
    transcription failed (one alert, naming the reported error or the
    fixed text for a thrown one); it ends with the transcribing flag
    down and touches neither the recording flag, the recorder ref, the
    chunk buffer nor the streams. *)
Theorem handleAudioTranscription_accounting
    (P : Platform) (audioBlob : Blob) (w : World) :
  let w' := snd (handleAudioTranscription P audioBlob w) in
  fst (handleAudioTranscription P audioBlob w) = Normal tt
  /\ uploads (calls w') = uploads (calls w) ++ [audioBlob]
  /\ alerts (calls w')
     = alerts (calls w)
       ++ match transcribeAudio P audioBlob with
          | Normal result =>
              if success result then []
              else [js "Could not transcribe audio: " ++ error result]
          | Throw _ => [js "Transcription failed. Please try again."]
          end
  /\ isTranscribing w' = false
  /\ isRecording w' = isRecording w
  /\ mediaRecorderRef w' = mediaRecorderRef w
  /\ audioChunksRef w' = audioChunksRef w
  /\ streams w' = streams w.
Proof.
  intros w'. unfold w'. rewrite handleAudioTranscription_run.
  cbn [fst snd calls isTranscribing isRecording mediaRecorderRef audioChunksRef streams].
  split; [reflexivity|]. unfold uploads, alerts.
  change (CallTranscribeAudio audioBlob :: ?t) with ([CallTranscribeAudio audioBlob] ++ t).
  rewrite !omap_app.
  destruct (transcribeAudio P audioBlob) as [result | e];
    [destruct (success result)|]; cbn; rewrite ?app_nil_r; repeat split; reflexivity.
Qed.

(** X11.  When the audio context cannot be built, the recorded blob
    cannot be read or the decoder rejects it, [convertToWavAndTranscribe]
    does not throw: nothing is uploaded, one alert is raised, the input
    field and the transcribing flag are untouched, and the tracks of the
    stream are stopped. *)
Theorem decode_failure_aborts
    (P : Platform) (audioBlob : Blob) (stream : nat) (w : World) :
  (exists e, audioContextNew P 16000 = Throw e)
  \/ (exists e, arrayBufferError P audioBlob = Some e)
  \/ (exists e, decoder P (blobData audioBlob) = Throw e) ->
  let w' := snd (convertToWavAndTranscribe P audioBlob stream w) in
  fst (convertToWavAndTranscribe P audioBlob stream w) = Normal tt
  /\ uploads (calls w') = uploads (calls w)
  /\ alerts (calls w') = alerts (calls w) ++ [js "Error processing audio. Please try again."]
  /\ inputText w' = inputText w
  /\ isTranscribing w' = isTranscribing w
  /\ streams w' = alter (fmap (fun _ => ended)) stream (streams w).
Proof.
  intros Hfail w'. unfold w'.
  unfold convertToWavAndTranscribe, AudioContext_new, Blob_arrayBuffer, decodeAudioData.
  run_M. unfold uploads, alerts.
  destruct (audioContextNew P 16000) as [ctx | e0].
  - destruct (arrayBufferError P audioBlob) as [e1|].
    + cbn. rewrite !omap_app. cbn. rewrite ?app_nil_r. repeat split; reflexivity.
    + destruct (decoder P (blobData audioBlob)) as [[c0 cs] | e2].
      * destruct Hfail as [[e He] | [[e He] | [e He]]]; discriminate.
      * cbn. rewrite !omap_app. cbn. rewrite ?app_nil_r. repeat split; reflexivity.
  - cbn. rewrite !omap_app. cbn. rewrite ?app_nil_r. repeat split; reflexivity.
Qed.

Lemma decode_failure_aborts_witness :
  ((exists e, audioContextNew undecodablePlatform 16000 = Throw e)
   \/ (exists e, arrayBufferError undecodablePlatform sampleChunk = Some e)
   \/ (exists e, decoder undecodablePlatform (blobData sampleChunk) = Throw e))
  /\ uploads (calls (snd (convertToWavAndTranscribe undecodablePlatform sampleChunk 0
                            initialWorld))) = [].
Proof.
  assert (H : (exists e, audioContextNew undecodablePlatform 16000 = Throw e)
              \/ (exists e, arrayBufferError undecodablePlatform sampleChunk = Some e)
              \/ (exists e, decoder undecodablePlatform (blobData sampleChunk) = Throw e)).
  { right. right. eexists. reflexivity. }
  split; [exact H|].
  exact (proj1 (proj2 (decode_failure_aborts undecodablePlatform sampleChunk 0
                         initialWorld H))).
Defined.

(** The state in which [stop] fires in a started session. *)
Lemma recordingSession_onstop
    (P : Platform) (w0 : World) (tracks : MediaStream) (early late : list Blob)
    (mediaRecorder : MediaRecorder) (stream : nat) :
  getUserMedia P = Normal tracks ->
  isTypeSupported P (recorderOptions (supportedTypes P)) = true ->
  recorderStartError P = None ->
  let recorder :=
    mkMediaRecorder (length (streams w0)) (recorderOptions (supportedTypes P)) in
  recordingSession P mediaRecorder stream early late w0
  = onstop P mediaRecorder stream
      (mkWorld (inputText w0) false (isTranscribing w0) (Some recorder)
         (filter (fun c => (0 < blobSize c)%nat) (early ++ late))
         (streams w0 ++ [tracks])
         (calls w0 ++ [CallGetUserMedia; CallRecorderStart recorder;
                       CallRecorderStop recorder])).
Proof.
  intros Hg Ht Hs recorder.
  unfold recordingSession, mbind, M_bind.
  rewrite (startRecording_started P w0 tracks Hg Ht Hs).
  rewrite dataEvents_ondataavailable. cbn [inputText isRecording isTranscribing
    mediaRecorderRef audioChunksRef streams calls].
  rewrite (stopRecording_active _ recorder) by reflexivity.
  rewrite dataEvents_ondataavailable. cbn [inputText isRecording isTranscribing
    mediaRecorderRef audioChunksRef streams calls with_isRecording with_calls app].
  now rewrite filter_app, <- app_assoc.
Qed.

(** The run of [convertToWavAndTranscribe] when the decode stage
    succeeds. *)
Lemma convertToWavAndTranscribe_decoded
    (P : Platform) (audioBlob : Blob) (stream : nat) (w : World)
    (audioContext : AudioContext) (c0 : list Number) (cs : list (list Number)) :
  audioContextNew P 16000 = Normal audioContext ->
  arrayBufferError P audioBlob = None ->
  decoder P (blobData audioBlob) = Normal (c0, cs) ->
  let wav := mkBlob (wavHeader (ctxSampleRate audioContext) (length c0)
                     ++ concat (le_split 2 <$> convertSamples c0)) (js "audio/wav") in
  audioBufferToWav (mkAudioBuffer (ctxSampleRate audioContext) c0 cs) = Some wav
  /\ convertToWavAndTranscribe P audioBlob stream w
     = (Normal tt,
        with_streams (alter (fmap (fun _ => ended)) stream (streams w))
          (snd (handleAudioTranscription P wav
                  (with_calls (calls w ++ [CallDecodeAudioData (blobData audioBlob)]) w)))).
Proof.
  intros Hctx Hab Hdec wav. split; [apply audioBufferToWav_spec|].
  unfold convertToWavAndTranscribe, AudioContext_new, Blob_arrayBuffer, decodeAudioData.
  run_M. rewrite Hctx, Hab. cbn beta iota. cbn [calls with_calls].
  rewrite Hdec. cbn beta iota.
  rewrite audioBufferToWav_spec. cbn [from_option sampleRate channel0]. fold wav.
  pose proof (handleAudioTranscription_inputText P wav
                (with_calls (calls w ++ [CallDecodeAudioData (blobData audioBlob)]) w))
    as (Hc & _ & Hst & _).
  destruct (handleAudioTranscription P wav
              (with_calls (calls w ++ [CallDecodeAudioData (blobData audioBlob)]) w))
    as [c w2].
  cbn [fst snd streams with_calls] in *. subst c. now rewrite Hst.
Qed.

(** X12.  In a started session whose recording the platform decodes,
    the decoder is asked once, for the chunks concatenated in arrival
    order, and exactly one blob is uploaded: the WAV encoding, typed
    [audio/wav], of channel 0 of what the decoder returned (its payload
    reads back as the converted samples).  An alert follows only if the
    transcription fails, and both flags are down at the end. *)
Theorem session_uploads_encoding
    (P : Platform) (w0 : World) (tracks : MediaStream) (early late : list Blob)
    (audioContext : AudioContext) (c0 : list Number) (cs : list (list Number)) :
  getUserMedia P = Normal tracks ->
  isTypeSupported P (recorderOptions (supportedTypes P)) = true ->
  recorderStartError P = None ->
  let stream := length (streams w0) in
  let recorder := mkMediaRecorder stream (recorderOptions (supportedTypes P)) in
  let recorded := concat (blobData <$> early ++ late) in
  audioContextNew P 16000 = Normal audioContext ->
  arrayBufferError P (mkBlob recorded (recMimeType recorder)) = None ->
  decoder P recorded = Normal (c0, cs) ->
  exists w' wav,
    recordingSession P recorder stream early late w0 = (Normal tt, w')
    /\ audioBufferToWav (mkAudioBuffer (ctxSampleRate audioContext) c0 cs) = Some wav
    /\ blobType wav = js "audio/wav"
    /\ parseSamples (drop 44 (blobData wav)) = convertSamples c0
    /\ decodeRequests (calls w') = decodeRequests (calls w0) ++ [recorded]
    /\ uploads (calls w') = uploads (calls w0) ++ [wav]
    /\ alerts (calls w')
       = alerts (calls w0)
         ++ match transcribeAudio P wav with
            | Normal result =>
                if success result then []
                else [js "Could not transcribe audio: " ++ error result]
            | Throw _ => [js "Transcription failed. Please try again."]
            end
    /\ isRecording w' = false /\ isTranscribing w' = false.
Proof.
  intros Hg Ht Hs stream recorder recorded Hctx Hab Hdec.
  rewrite (recordingSession_onstop P w0 tracks early late recorder stream Hg Ht Hs).
  unfold onstop, get, mbind, M_bind. cbn [audioChunksRef].
  unfold Blob_new. rewrite concat_nonempty_chunks. fold recorded.
  match goal with
  | |- context [convertToWavAndTranscribe P ?b stream ?w3] =>
      destruct (convertToWavAndTranscribe_decoded P b stream w3 audioContext c0 cs
                  Hctx Hab Hdec) as (Hwav & ->)
  end.
  set (wav := mkBlob (wavHeader (ctxSampleRate audioContext) (length c0)
                        ++ concat (le_split 2 <$> convertSamples c0)) (js "audio/wav"))
    in *.
  rewrite handleAudioTranscription_run.
  eexists _, wav. split; [reflexivity|]. split; [exact Hwav|].
  cbn [snd calls with_streams with_calls isRecording isTranscribing].
  split; [reflexivity|].
  split; [exact (payload_parse c0 (wavHeader (ctxSampleRate audioContext) (length c0))
                   (length_wavHeader _ _))|].
  - unfold decodeRequests, uploads, alerts.
    change (CallTranscribeAudio wav :: ?t) with ([CallTranscribeAudio wav] ++ t).
    rewrite !omap_app.
    destruct (transcribeAudio P wav) as [result | e];
      [destruct (success result)|]; cbn; rewrite ?app_nil_r; repeat split; reflexivity.
Qed.

Lemma session_uploads_encoding_witness :
  getUserMedia samplePlatform = Normal [live]
  /\ isTypeSupported samplePlatform (recorderOptions (supportedTypes samplePlatform)) = true
  /\ recorderStartError samplePlatform = None
  /\ audioContextNew samplePlatform 16000 = Normal (mkAudioContext 16000)
  /\ arrayBufferError samplePlatform
       (mkBlob (concat (blobData <$> [sampleChunk] ++ [sampleChunk]))
          (recorderOptions (supportedTypes samplePlatform))) = None
  /\ decoder samplePlatform (concat (blobData <$> [sampleChunk] ++ [sampleChunk]))
     = Normal ([Finite (1 # 2); Finite (-1)], [])
  /\ exists w' wav,
       recordingSession samplePlatform
         (mkMediaRecorder 0 (recorderOptions (supportedTypes samplePlatform))) 0
         [sampleChunk] [sampleChunk] initialWorld = (Normal tt, w')
       /\ uploads (calls w') = [wav]
       /\ parseSamples (drop 44 (blobData wav)) = [16383; -32768].
Proof.
  split; [reflexivity|]. split; [exact samplePlatform_records|].
  split; [reflexivity|]. split; [reflexivity|]. split; [reflexivity|].
  split; [reflexivity|].
  destruct (session_uploads_encoding samplePlatform initialWorld [live]
              [sampleChunk] [sampleChunk] (mkAudioContext 16000)
              [Finite (1 # 2); Finite (-1)] []
              eq_refl samplePlatform_records eq_refl eq_refl eq_refl eq_refl)
    as (w' & wav & H1 & _ & _ & H4 & _ & H6 & _).
  exists w', wav. split; [exact H1|]. split; [exact H6 | exact H4].
Defined.

(** X13.  In the earlier revision a started session ends with the
    tracks of its stream stopped, whatever the transcription does, after
    exactly one upload: the recorded chunks concatenated in arrival
    order, unconverted (no decode is requested) and labelled
    [audio/wav] whatever the recorder produced. *)
Theorem legacy_session_uploads_recording
    (P : Platform) (w0 : World) (tracks : MediaStream) (early late : list Blob) :
  getUserMedia P = Normal tracks ->
  recorderStartError P = None ->
  let stream := length (streams w0) in
  exists w',
    legacySession P stream early late w0 = (Normal tt, w')
    /\ streams w' !! stream = Some ((fun _ => ended) <$> tracks)
    /\ uploads (calls w')
       = uploads (calls w0)
         ++ [mkBlob (concat (blobData <$> early ++ late)) (js "audio/wav")]
    /\ decodeRequests (calls w') = decodeRequests (calls w0)
    /\ isRecording w' = false /\ isTranscribing w' = false.
Proof.
  intros Hg Hs stream.
  unfold legacySession, mbind, M_bind.
  rewrite (legacy_startRecording_started P w0 tracks Hg Hs).
  rewrite dataEvents_legacy. cbn [inputText isRecording isTranscribing
    mediaRecorderRef audioChunksRef streams calls].
  rewrite (stopRecording_active _ (mkMediaRecorder (length (streams w0)) []))
    by reflexivity.
  rewrite dataEvents_legacy. cbn [inputText isRecording isTranscribing
    mediaRecorderRef audioChunksRef streams calls with_isRecording with_calls app].
  unfold Legacy.onstop, get, stopTracks, modify, mbind, M_bind. cbn [audioChunksRef].
  rewrite handleAudioTranscription_run. unfold Blob_new.
  eexists. split; [reflexivity|].
  cbn [streams with_streams calls isRecording isTranscribing].
  split; [|split].
  - rewrite list_lookup_alter, decide_True by reflexivity.
    fold stream. now rewrite lookup_app_r, Nat.sub_diag by (unfold stream; lia).
  - unfold uploads. rewrite <- app_assoc.
    change (CallTranscribeAudio ?b :: ?t) with ([CallTranscribeAudio b] ++ t).
    rewrite !omap_app.
    destruct (transcribeAudio P _) as [result | e];
      [destruct (success result)|]; cbn; now rewrite ?app_nil_r.
  - unfold decodeRequests. rewrite <- app_assoc.
    change (CallTranscribeAudio ?b :: ?t) with ([CallTranscribeAudio b] ++ t).
    rewrite !omap_app.
    destruct (transcribeAudio P _) as [result | e];
      [destruct (success result)|]; cbn; rewrite ?app_nil_r; repeat split; reflexivity.
Qed.

Lemma legacy_session_uploads_recording_witness :
  getUserMedia samplePlatform = Normal [live]
  /\ recorderStartError samplePlatform = None
  /\ exists w',
       legacySession samplePlatform 0 [sampleChunk] [sampleChunk] initialWorld
       = (Normal tt, w')
       /\ streams w' !! 0%nat = Some [ended].
Proof.
  split; [reflexivity|]. split; [reflexivity|].
  destruct (legacy_session_uploads_recording samplePlatform initialWorld [live]
              [sampleChunk] [sampleChunk] eq_refl eq_refl) as (w' & H1 & H2 & _).
  exists w'. split; assumption.
Defined.

(* ===================================================================== *)
(** * The [App] component and the API helpers *)
(* ===================================================================== *)

Ltac run_App :=
  unfold App.sendChatMessage, App.transcribeAudio, App.checkHealth, App.apiClient_post,
    App.setMessages, App.setCurrentEmotion, App.setIsSpeaking, App.setIsLoading,
    App.emit, App.modify, App.throw, App.try_catch, App.try_finally,
    mbind, App.AppM_bind, mret, App.AppM_ret.

(** The whole effect of one [handleSendMessage]. *)
Lemma handleSendMessage_run (B : App.Backend) (messageText : jsstring) (s : App.State) :
  let body := [(js "message", messageText); (js "session_id", js "default")] in
  let userMessage := App.mkMessage (js "user") messageText None (App.clockBefore B) in
  App.handleSendMessage B messageText s
  = (Normal tt,
     match App.postChat B body with
     | App.Response response =>
         App.mkState
           (App.messages s
            ++ [userMessage;
                App.mkMessage (js "assistant") (App.text response)
                  (Some (App.emotion response)) (App.clockAfter B)])
           (App.emotion response) true false
           (App.effects s ++ [App.PostJson (App.API_BASE_URL ++ js "/chat") body 30000])
     | App.Failure _ =>
         App.mkState
           (App.messages s
            ++ [userMessage;
                App.mkMessage (js "assistant")
                  (js "Sorry, I encountered an error. Please try again.")
                  (Some (js "confused")) (App.clockAfter B)])
           (js "confused") (App.isSpeaking s) false
           (App.effects s
            ++ [App.PostJson (App.API_BASE_URL ++ js "/chat") body 30000;
                App.ConsoleError (js "Chat error:");
                App.ConsoleError (js "Error sending message:")])
     end).
Proof.
  intros body userMessage. unfold App.handleSendMessage. run_App.
  cbn [default]. fold body. fold userMessage.
  destruct (App.postChat B body) as [response | detail]; cbn;
    now rewrite <- ?app_assoc.
Qed.

(** X14.  Every [handleSendMessage] returns normally with the loading
    flag down, having appended exactly two messages after the ones
    already shown: the user's, with the text given, then one assistant
    message; and having sent exactly one chat request, which carries the
    text unchanged and the session id "default". *)
Theorem handleSendMessage_appends_two
    (B : App.Backend) (messageText : jsstring) (s : App.State) :
  let s' := snd (App.handleSendMessage B messageText s) in
  fst (App.handleSendMessage B messageText s) = Normal tt
  /\ (exists reply,
        App.messages s'
        = App.messages s
          ++ [App.mkMessage (js "user") messageText None (App.clockBefore B); reply]
        /\ App.msgRole reply = js "assistant"
        /\ App.msgEmotion reply <> None)
  /\ App.isLoading s' = false
  /\ App.chatRequests (App.effects s')
     = App.chatRequests (App.effects s)
       ++ [[(js "message", messageText); (js "session_id", js "default")]].
Proof.
  intros s'. unfold s'. rewrite handleSendMessage_run. cbn [fst snd].
  split; [reflexivity|].
  destruct (App.postChat B _) as [response | detail];
    cbn [App.messages App.isLoading App.effects];
    (split; [eexists; split; [reflexivity|]; split; [reflexivity | discriminate]|]);
    (split; [reflexivity|]);
    unfold App.chatRequests; rewrite omap_app; f_equal.
Qed.

(** X15.  What the reply is.  When the chat request succeeds the
    assistant message carries the text and emotion of the response, the
    mascot takes that emotion and speech is switched on.  When it fails,
    whatever the error, the assistant message is the fixed apology with
    emotion "confused", the mascot is confused, and the speaking flag is
    left as it was. *)
Theorem handleSendMessage_reply
    (B : App.Backend) (messageText : jsstring) (s : App.State) :
  let body := [(js "message", messageText); (js "session_id", js "default")] in
  let s' := snd (App.handleSendMessage B messageText s) in
  (forall response,
     App.postChat B body = App.Response response ->
     last (App.messages s')
     = Some (App.mkMessage (js "assistant") (App.text response)
               (Some (App.emotion response)) (App.clockAfter B))
     /\ App.currentEmotion s' = App.emotion response
     /\ App.isSpeaking s' = true)
  /\ (forall detail,
        App.postChat B body = App.Failure detail ->
        last (App.messages s')
        = Some (App.mkMessage (js "assistant")
                  (js "Sorry, I encountered an error. Please try again.")
                  (Some (js "confused")) (App.clockAfter B))
        /\ App.currentEmotion s' = js "confused"
        /\ App.isSpeaking s' = App.isSpeaking s).
Proof.
  intros body s'. unfold s'. rewrite handleSendMessage_run. fold body. cbn [snd].
  split.
  - intros response ->. cbn [App.messages App.currentEmotion App.isSpeaking].
    split; [|split; reflexivity].
    now rewrite last_app.
  - intros detail ->. cbn [App.messages App.currentEmotion App.isSpeaking].
    split; [|split; reflexivity].
    now rewrite last_app.
Qed.

(** X16.  The API helpers on failure.  [checkHealth] never throws: it
    returns the body of a successful response, and the status "offline"
    with [rag_ready] false when the request fails.  [sendChatMessage]
    and [transcribeAudio] return the body of a successful response
    unchanged and throw exactly when the request fails, and the message
    of the error they throw is never empty. *)
Theorem api_helpers_on_failure (B : App.Backend) (s : App.State) :
  (exists health,
     fst (App.checkHealth B s) = Normal health
     /\ (forall detail, App.getHealth B = App.Failure detail ->
         health = App.mkHealth (js "offline") false)
     /\ (forall data, App.getHealth B = App.Response data -> health = data))
  /\ (forall message sessionId,
        let body := [(js "message", message);
                     (js "session_id", default (js "default") sessionId)] in
        (exists data, App.postChat B body = App.Response data
                      /\ fst (App.sendChatMessage B message sessionId s) = Normal data)
        \/ (exists detail e, App.postChat B body = App.Failure detail
                             /\ fst (App.sendChatMessage B message sessionId s) = Throw e
                             /\ e <> []))
  /\ (forall audioBlob,
        (exists data, App.postTranscribe B audioBlob = App.Response data
                      /\ fst (App.transcribeAudio B audioBlob s) = Normal data)
        \/ (exists detail e, App.postTranscribe B audioBlob = App.Failure detail
                             /\ fst (App.transcribeAudio B audioBlob s) = Throw e
                             /\ e <> [])).
Proof.
  assert (Hne : forall detail fallback, fallback <> [] -> App.detail_or detail fallback <> []).
  { intros [d|] fallback Hf; cbn; [|exact Hf]. now destruct d. }
  split; [|split].
  - unfold App.checkHealth, App.emit, App.modify, mbind, App.AppM_bind, mret, App.AppM_ret.
    destruct (App.getHealth B) as [data | detail]; cbn; eexists;
      (split; [reflexivity|]); split; congruence.
  - intros message sessionId body.
    unfold App.sendChatMessage, App.apiClient_post, App.emit, App.modify, App.throw,
      mbind, App.AppM_bind, mret, App.AppM_ret.
    fold body. cbv beta iota.
    destruct (App.postChat B body) as [data | detail].
    + left. exists data. split; reflexivity.
    + right. exists detail, (App.detail_or detail (js "Failed to send message")).
      split; [reflexivity|]. split; [reflexivity|]. now apply Hne.
  - intros audioBlob.
    unfold App.transcribeAudio, App.emit, App.modify, App.throw,
      mbind, App.AppM_bind, mret, App.AppM_ret.
    cbv beta iota.
    destruct (App.postTranscribe B audioBlob) as [data | detail].
    + left. exists data. split; reflexivity.
    + right. exists detail, (App.detail_or detail (js "Failed to transcribe audio")).
      split; [reflexivity|]. split; [reflexivity|]. now apply Hne.
Qed.

(* ===================================================================== *)
(** * Speech output *)
(* ===================================================================== *)

Lemma find_first {A : Type} (p : A -> bool) (l : list A) (v : A) :
  find p l = Some v ->
  p v = true
  /\ exists pre post, l = pre ++ v :: post /\ Forall (fun u => p u = false) pre.
Proof.
  induction l as [|a l IH]; [discriminate|]. cbn [find].
  destruct (p a) eqn:Ha.
  - intros [= <-]. split; [assumption|]. now exists [], l.
  - intros H. destruct (IH H) as (Hv & pre & post & -> & Hpre).
    split; [assumption|]. exists (a :: pre), post. split; [reflexivity|].
    now constructor.
Qed.

Lemma find_none_Forall {A : Type} (p : A -> bool) (l : list A) :
  find p l = None <-> Forall (fun u => p u = false) l.
Proof.
  induction l as [|a l IH]; cbn [find].
  - split; [constructor | reflexivity].
  - destruct (p a) eqn:Ha.
    + split; [discriminate|]. intros H. apply Forall_cons in H as [H _]. congruence.
    + rewrite IH. split; [now constructor|]. now intros [_ H]%Forall_cons.
Qed.

(** X17.  The voice given to an utterance.  None is chosen exactly when
    no installed voice has a language tag starting with "en".  A chosen
    voice is English and comes from the list; if its name contains
    "Female" no English "Female" voice precedes it, and otherwise no
    English voice precedes it and no English "Female" voice is installed
    at all. *)
Theorem preferredVoice_choice (voices : list Tts.Voice) :
  (Tts.preferredVoice voices = None
   <-> Forall (fun v => Tts.isEnglish v = false) voices)
  /\ (forall v,
        Tts.preferredVoice voices = Some v ->
        Tts.isEnglish v = true
        /\ exists pre post,
             voices = pre ++ v :: post
             /\ if Tts.isFemale v
                then Forall (fun u => Tts.isEnglish u && Tts.isFemale u = false) pre
                else Forall (fun u => Tts.isEnglish u = false) pre
                     /\ Forall (fun u => Tts.isEnglish u && Tts.isFemale u = false) voices).
Proof.
  unfold Tts.preferredVoice. split.
  - destruct (find (fun v => Tts.isEnglish v && Tts.isFemale v) voices) as [v|] eqn:E1.
    + split; [discriminate|]. intros Hall.
      apply find_first in E1 as (Hv & pre & post & -> & _).
      apply Forall_app in Hall as [_ Hall]. apply Forall_cons in Hall as [Hen _].
      rewrite Hen in Hv. discriminate.
    + apply find_none_Forall.
  - intros v.
    destruct (find (fun v => Tts.isEnglish v && Tts.isFemale v) voices) as [v'|] eqn:E1.
    + intros [= ->]. apply find_first in E1 as (Hv & pre & post & -> & Hpre).
      apply andb_true_iff in Hv as [Hen Hfe]. split; [assumption|].
      exists pre, post. split; [reflexivity|]. now rewrite Hfe.
    + intros E2. apply find_first in E2 as (Hen & pre & post & -> & Hpre).
      apply find_none_Forall in E1. split; [assumption|].
      exists pre, post. split; [reflexivity|].
      destruct (Tts.isFemale v) eqn:Hfe.
      * apply Forall_app in E1 as [_ E1]. apply Forall_cons in E1 as [Hv _].
        rewrite Hen, Hfe in Hv. discriminate.
      * now split.
Qed.

(** ** Whitespace after cleaning *)

Lemma singleSpaced_app_r (l m : jsstring) : singleSpaced (l ++ m) -> singleSpaced m.
Proof. induction l as [|a l IH]; [easy|]. cbn. intros [_ H]. now apply IH. Qed.

Lemma singleSpaced_app_l (l m : jsstring) : singleSpaced (l ++ m) -> singleSpaced l.
Proof.
  induction l as [|a l IH]; [easy|]. cbn. intros [Ha H]. split; [|now apply IH].
  intros Hw. destruct (Ha Hw) as [-> Hb]. split; [reflexivity|].
  intros b Hhead. apply Hb. destruct l; [discriminate | exact Hhead].
Qed.

Lemma singleSpaced_Forall (s : jsstring) :
  singleSpaced s -> Forall (fun c => isWhiteSpace c = true -> c = 32%N) s.
Proof.
  induction s as [|a s IH]; [constructor|]. cbn. intros [Ha H].
  constructor; [|now apply IH]. intros Hw. now destruct (Ha Hw).
Qed.

(** Collapsing the whitespace runs (line 27). *)
Lemma collapse_singleSpaced (run s : jsstring) :
  let r := replaceRuns isWhiteSpace 1 (js " ") run s in
  singleSpaced r
  /\ (run <> [] ->
      exists rest, r = 32%N :: rest
                   /\ forall b, head rest = Some b -> isWhiteSpace b = false).
Proof.
  revert run. induction s as [|c s IH]; intros run; cbn [replaceRuns].
  - destruct run as [|a run]; cbn; [split; [exact I | congruence]|].
    split.
    + split; [|exact I]. intros _. split; [reflexivity | discriminate].
    + intros _. exists []. split; [reflexivity | discriminate].
  - destruct (isWhiteSpace c) eqn:Hc.
    + destruct (IH (run ++ [c])) as [H1 H2]. split; [exact H1|].
      intros _. apply H2. now destruct run.
    + destruct (IH []) as [H1 _].
      assert (Hc' : singleSpaced (c :: replaceRuns isWhiteSpace 1 (js " ") [] s)).
      { cbn. split; [congruence | exact H1]. }
      destruct run as [|a run]; cbn [length Nat.leb app]; [split; [exact Hc' | congruence]|].
      change (js " ") with [32%N]. cbn [app]. split.
      * cbn. split; [|exact Hc']. intros _. split; [reflexivity|].
        now intros b [= <-].
      * intros _. eexists. split; [reflexivity|]. now intros b [= <-].
Qed.

(** X18.  The text handed to the speech synthesizer, whatever the
    markdown passes produced: it contains no whitespace other than
    single U+0020 separators (no line feed, tab or doubled space) and it
    neither begins nor ends with whitespace. *)
Theorem cleanTextForSpeech_whitespace (markdown : jsstring -> jsstring) (text : jsstring) :
  let cleaned := Tts.cleanTextForSpeech markdown text in
  singleSpaced cleaned
  /\ Forall (fun c => isWhiteSpace c = true -> c = 32%N) cleaned
  /\ (forall c, head cleaned = Some c -> isWhiteSpace c = false)
  /\ (forall c, last cleaned = Some c -> isWhiteSpace c = false).
Proof.
  intros cleaned. unfold cleaned, Tts.cleanTextForSpeech.
  set (collapsed := replaceRuns isWhiteSpace 1 (js " ") [] _).
  destruct (trim_spec collapsed) as ((l & r & Hsplit & _ & _) & Hhead & Hlast).
  assert (Hs : singleSpaced (trim collapsed)).
  { pose proof (proj1 (collapse_singleSpaced [] _) : singleSpaced collapsed) as Hc.
    rewrite Hsplit in Hc.
    now apply singleSpaced_app_r, singleSpaced_app_l in Hc. }
  split; [exact Hs|]. split; [now apply singleSpaced_Forall|]. now split.
Qed.

Lemma onEndCalls_app (es es' : list Tts.Effect) :
  Tts.onEndCalls (es ++ es') = (Tts.onEndCalls es + Tts.onEndCalls es')%nat.
Proof. unfold Tts.onEndCalls. now rewrite omap_app, length_app. Qed.

(** X19.  The completion callback of [speakText].  Without speech
    synthesis nothing is cancelled or spoken, a warning is logged and the
    callback (when one was passed) runs at once, exactly once.  With
    speech synthesis [speakText] itself does not run the callback; the
    [onend] handler, and likewise the [onerror] handler, then clears
    [currentUtterance] and runs it exactly once. *)
Theorem speakText_completion
    (markdown : jsstring -> jsstring) (text : jsstring) (onEnd : bool) (s : Tts.State) :
  let ran := if onEnd then 1%nat else 0%nat in
  (let s' := Tts.speakText None markdown text onEnd s in
   Tts.currentUtterance s' = None
   /\ Tts.spoken (Tts.effects s') = Tts.spoken (Tts.effects s)
   /\ Tts.effects s'
      = Tts.effects s
        ++ Tts.ConsoleWarn (js "Speech synthesis not supported")
           :: (if onEnd then [Tts.OnEnd] else [])
   /\ Tts.onEndCalls (Tts.effects s') = (Tts.onEndCalls (Tts.effects s) + ran)%nat)
  /\ (forall voices,
        let s' := Tts.speakText (Some voices) markdown text onEnd s in
        Tts.onEndCalls (Tts.effects s') = Tts.onEndCalls (Tts.effects s)
        /\ Tts.currentUtterance s' <> None
        /\ Tts.currentUtterance (Tts.onend onEnd s') = None
        /\ Tts.onEndCalls (Tts.effects (Tts.onend onEnd s'))
           = (Tts.onEndCalls (Tts.effects s) + ran)%nat
        /\ Tts.currentUtterance (Tts.onerror onEnd s') = None
        /\ Tts.onEndCalls (Tts.effects (Tts.onerror onEnd s'))
           = (Tts.onEndCalls (Tts.effects s) + ran)%nat).
Proof.
  intros ran. split.
  - unfold Tts.speakText, Tts.stopSpeaking, Tts.callOnEnd, Tts.emit,
      Tts.setCurrentUtterance.
    destruct onEnd; cbn [Tts.currentUtterance Tts.effects];
      rewrite <- ?app_assoc; unfold Tts.spoken; rewrite ?onEndCalls_app, ?omap_app;
      cbn; rewrite ?app_nil_r; repeat split; lia.
  - intros voices.
    unfold Tts.speakText, Tts.onend, Tts.onerror, Tts.stopSpeaking, Tts.callOnEnd,
      Tts.emit, Tts.setCurrentUtterance.
    destruct (Tts.preferredVoice voices), onEnd;
      cbn [Tts.currentUtterance Tts.effects];
      rewrite ?onEndCalls_app; cbn; repeat split; try discriminate; lia.
Qed.

(** X20.  With speech synthesis, [speakText] first cancels whatever is
    being spoken and then speaks exactly one utterance, which becomes
    the current one: its text is the cleaned text (single-spaced, no
    whitespace at either end), rate, pitch and volume are 1, and its
    voice is the preferred voice, left unset when there is none. *)
Theorem speakText_utterance
    (voices : list Tts.Voice) (markdown : jsstring -> jsstring) (text : jsstring)
    (onEnd : bool) (s : Tts.State) :
  let s' := Tts.speakText (Some voices) markdown text onEnd s in
  exists u,
    Tts.effects s' = Tts.effects s ++ [Tts.Cancel; Tts.Speak u]
    /\ Tts.currentUtterance s' = Some u
    /\ Tts.utteranceText u = Tts.cleanTextForSpeech markdown text
    /\ singleSpaced (Tts.utteranceText u)
    /\ (forall c, head (Tts.utteranceText u) = Some c -> isWhiteSpace c = false)
    /\ (forall c, last (Tts.utteranceText u) = Some c -> isWhiteSpace c = false)
    /\ Tts.rate u = 1%Q /\ Tts.pitch u = 1%Q /\ Tts.volume u = 1%Q
    /\ Tts.voice u = Tts.preferredVoice voices.
Proof.
  intros s'. unfold s', Tts.speakText, Tts.stopSpeaking, Tts.emit, Tts.setCurrentUtterance.
  set (cleaned := Tts.cleanTextForSpeech markdown text).
  assert (Hclean : singleSpaced cleaned
                   /\ (forall c, head cleaned = Some c -> isWhiteSpace c = false)
                   /\ (forall c, last cleaned = Some c -> isWhiteSpace c = false)).
  { unfold cleaned, Tts.cleanTextForSpeech.
    set (collapsed := replaceRuns isWhiteSpace 1 (js " ") [] _).
    destruct (trim_spec collapsed) as ((l & r & Hsplit & _ & _) & Hhead & Hlast).
    split; [|now split].
    pose proof (proj1 (collapse_singleSpaced [] _) : singleSpaced collapsed) as Hc.
    rewrite Hsplit in Hc. now apply singleSpaced_app_r, singleSpaced_app_l in Hc. }
  destruct Hclean as (H1 & H2 & H3).
  destruct (Tts.preferredVoice voices) as [v|]; eexists;
    cbn [Tts.currentUtterance Tts.effects Tts.utteranceText Tts.rate Tts.pitch
         Tts.volume Tts.voice];
    rewrite <- app_assoc; repeat split; assumption.
Qed.

(* ===================================================================== *)
(** * The mascot's tables and the message markup *)
(* ===================================================================== *)

Lemma lookup_or_cases (table : list (jsstring * jsstring)) (k fallback : jsstring) :
  (exists v0, (k, v0) ∈ table
              /\ Mascot.lookup_or table k fallback
                 = Some (if truthy v0 then v0 else fallback))
  \/ ((k ∉ (fst <$> table))
      /\ Mascot.lookup_or table k fallback
         = if bool_decide (k ∈ Mascot.objectPrototypeKeys) then None else Some fallback).
Proof.
  unfold Mascot.lookup_or.
  destruct (list_find (fun kv => kv.1 = k) table) as [[i [k' v]]|] eqn:E.
  - left. apply list_find_Some in E as (Hi & Hk & _). cbn in Hk. subst k'.
    exists v. split; [|reflexivity]. eapply list_elem_of_lookup_2, Hi.
  - right. split; [|reflexivity]. apply list_find_None in E.
    intros Hin. apply list_elem_of_fmap in Hin as ([k' v] & -> & Hin).
    rewrite Forall_forall in E. now apply (E _ Hin).
Qed.

(** X21.  The mascot's colour and face for an emotion.  For every
    emotion string that is not the name of a member of
    [Object.prototype] the colour is a "#" followed by six lower-case
    hexadecimal digits and the face is not empty; an emotion outside the
    seven of the tables gets the colour and the face of "neutral".  For
    the name of an [Object.prototype] member the lookups do not yield a
    string of the tables. *)
Theorem mascot_emotion_lookup (emotion : jsstring) :
  (emotion ∉ Mascot.objectPrototypeKeys ->
   exists color face,
     Mascot.getEmotionColor emotion = Some color
     /\ Mascot.getFaceEmoji emotion = Some face
     /\ length color = 7%nat
     /\ head color = Some 35%N
     /\ Forall (fun c => Mascot.isHexDigit c = true) (tail color)
     /\ face <> []
     /\ (emotion ∉ (fst <$> Mascot.colors) ->
         Some color = Mascot.getEmotionColor (js "neutral")
         /\ Some face = Mascot.getFaceEmoji (js "neutral")))
  /\ (emotion ∈ Mascot.objectPrototypeKeys ->
      Mascot.getEmotionColor emotion = None /\ Mascot.getFaceEmoji emotion = None).
Proof.
  assert (Hcolors : Forall (fun kv : jsstring * jsstring =>
                              truthy kv.2 = true /\ length kv.2 = 7%nat
                              /\ head kv.2 = Some 35%N
                              /\ Forall (fun c => Mascot.isHexDigit c = true) (tail kv.2)
                              /\ kv.1 ∉ Mascot.objectPrototypeKeys)
                      Mascot.colors).
  { repeat constructor; vm_compute; intros H;
      repeat (apply elem_of_cons in H as [H | H]; [discriminate|]);
      now apply elem_of_nil in H. }
  assert (Hfaces : Forall (fun kv : jsstring * jsstring =>
                             truthy kv.2 = true /\ kv.2 <> []
                             /\ kv.1 ∉ Mascot.objectPrototypeKeys)
                     Mascot.faces).
  { repeat constructor; try discriminate; vm_compute; intros H;
      repeat (apply elem_of_cons in H as [H | H]; [discriminate|]);
      now apply elem_of_nil in H. }
  assert (Hkeys : fst <$> Mascot.faces = fst <$> Mascot.colors) by reflexivity.
  rewrite Forall_forall in Hcolors, Hfaces.
  unfold Mascot.getEmotionColor, Mascot.getFaceEmoji.
  destruct (lookup_or_cases Mascot.colors emotion (js "#a78bfa"))
    as [(c0 & Hc0 & ->) | (Hnc & ->)];
    destruct (lookup_or_cases Mascot.faces emotion [55357; 56842]%N)
      as [(f0 & Hf0 & ->) | (Hnf & ->)].
  - destruct (Hcolors _ Hc0) as (Ht & Hl & Hh & Hx & Hnp).
    destruct (Hfaces _ Hf0) as (Ht' & Hne & _). cbn [fst snd] in *.
    rewrite Ht, Ht'. split; [|intros Hin; contradiction].
    intros _. exists c0, f0.
    split; [reflexivity|]. split; [reflexivity|]. split; [assumption|].
    split; [assumption|]. split; [assumption|]. split; [assumption|].
    intros Hout. exfalso. apply Hout.
    apply list_elem_of_fmap. now exists (emotion, c0).
  - exfalso. apply Hnf. rewrite Hkeys. apply list_elem_of_fmap. now exists (emotion, c0).
  - exfalso. apply Hnc. rewrite <- Hkeys. apply list_elem_of_fmap. now exists (emotion, f0).
  - split.
    + intros Hp. rewrite !bool_decide_eq_false_2 by assumption.
      eexists _, _. split; [reflexivity|]. split; [reflexivity|].
      repeat split; try discriminate; try reflexivity.
      repeat constructor.
    + intros Hp. now rewrite !bool_decide_eq_true_2 by assumption.
Qed.

(** ** No line feed survives the markup *)

Lemma replaceEach_clears (p : N -> bool) (rep s : jsstring) :
  Forall (fun c => p c = false) rep ->
  Forall (fun c => p c = false) (replaceEach p rep s).
Proof.
  intros Hrep. induction s as [|c s IH]; [constructor|]. cbn [replaceEach].
  apply Forall_app. split; [|exact IH].
  destruct (p c) eqn:Hc; [exact Hrep | now repeat constructor].
Qed.

Lemma removeAll_elem (pat : jsstring) (skip : nat) (s : jsstring) (c : N) :
  c ∈ removeAll pat skip s -> c ∈ s.
Proof.
  revert skip. induction s as [|a s IH]; intros skip; [easy|]. cbn [removeAll].
  destruct skip as [|k].
  - case_bool_decide.
    + intros Hc. right. exact (IH _ Hc).
    + intros [-> | Hc]%elem_of_cons; [left | right; exact (IH _ Hc)].
  - intros Hc. right. exact (IH _ Hc).
Qed.

(** X22.  The markup returned by [formatMessage] contains no line feed,
    whatever the earlier passes produced: every line feed has become
    part of a paragraph break or a [<br/>]. *)
Theorem formatMessage_no_line_feed (markup : jsstring -> jsstring) (text : jsstring) :
  Forall (fun c => c <> 10%N) (formatMessage markup text).
Proof.
  unfold formatMessage.
  set (broken := replaceEach isLineFeed (js "<br/>") _).
  assert (Hb : Forall (fun c => isLineFeed c = false) broken).
  { apply replaceEach_clears. repeat constructor. }
  assert (Hw : Forall (fun c => isLineFeed c = false)
                 (if negb (startsWith broken (js "<"))
                  then js "<p>" ++ broken ++ js "</p>" else broken)).
  { destruct (negb _); [|exact Hb].
    apply Forall_app. split; [repeat constructor|].
    apply Forall_app. split; [exact Hb | repeat constructor]. }
  apply Forall_forall. intros c Hc Heq. subst c.
  apply removeAll_elem in Hc. rewrite Forall_forall in Hw.
  specialize (Hw _ Hc). discriminate.
Qed.

(* ===================================================================== *)
(** * The application and the mascot together *)
(* ===================================================================== *)

(** X23.  What the mascot speaks after a message was sent.  When the
    chat request succeeds the mascot is handed the text of the response.
    When it fails the apology is handed to it only if the speaking flag
    was already up; from a silent state a failed request is shown but
    not spoken. *)
Theorem handleSendMessage_speech
    (B : App.Backend) (messageText : jsstring) (s : App.State) :
  let body := [(js "message", messageText); (js "session_id", js "default")] in
  mascotSpeaks (snd (App.handleSendMessage B messageText s))
  = match App.postChat B body with
    | App.Response response => Some (App.text response)
    | App.Failure _ =>
        if App.isSpeaking s
        then Some (js "Sorry, I encountered an error. Please try again.")
        else None
    end.
Proof.
  intros body. rewrite handleSendMessage_run. fold body. cbn [snd].
  unfold mascotSpeaks.
  destruct (App.postChat B body) as [response | detail];
    cbn [App.messages App.isSpeaking]; rewrite last_app; cbn [last spokenText App.msgRole App.msgText].
  - now rewrite bool_decide_eq_true_2.
  - rewrite bool_decide_eq_true_2 by reflexivity. now destruct (App.isSpeaking s).
Qed.

(** X24.  The end of speech brings the application to rest: after
    [handleSpeechEnd] the speaking flag is down and the emotion is
    "neutral", the messages, the loading flag and the requests made are
    as before, the mascot is handed nothing to speak, and a second
    completion changes nothing more. *)
Theorem handleSpeechEnd_resets (s : App.State) :
  let s' := snd (App.handleSpeechEnd s) in
  fst (App.handleSpeechEnd s) = Normal tt
  /\ App.isSpeaking s' = false
  /\ App.currentEmotion s' = js "neutral"
  /\ App.messages s' = App.messages s
  /\ App.isLoading s' = App.isLoading s
  /\ App.effects s' = App.effects s
  /\ mascotSpeaks s' = None
  /\ (App.handleSpeechEnd;; App.handleSpeechEnd) s = App.handleSpeechEnd s.
Proof.
  unfold App.handleSpeechEnd, mascotSpeaks. run_App. cbn.
  repeat (split; [reflexivity|]).
  split; [|reflexivity].
  now destruct (last (App.messages s)).
Qed.
